(** * github-trending-ja: the enrichment pipelines

    The repository holds two implementations of the same daily job:

    - the Go command ([package main]: [run], [fetchTrendingRepos],
      [fetchReadme], [OllamaClient.Summarize], [sendDiscordNotification],
      [buildDiscordMessages], [languageToColor]),
    - the TypeScript worker ([server/index.ts]: [fetchTrending],
      [fetchReadme], [summarizeReadme], [getTrendingReposWithSummary],
      [scheduled]).

    Both are embedded below.  Everything a function asks of the outside
    (HTTP, the GitHub client, the file system, the clock, the process
    environment) is a node of a finite tree of calls, [prog]; a [world]
    answers each call from the calls made so far, so that one and the same
    request may be answered differently from one moment to the next. *)

From Stdlib Require Import List String Ascii ZArith Lia Bool Arith.
From Stdlib Require Import DecimalString.
Import ListNotations.

Local Open Scope list_scope.

(* ================================================================== *)
(** * Programs over external calls *)
(* ================================================================== *)

Module Prog.

Section WithCalls.

(** [E X] is the type of calls whose answer has type [X]. *)
Variable E : Type -> Type.

Inductive prog (A : Type) : Type :=
  | Ret (a : A)
  | Vis (X : Type) (e : E X) (k : X -> prog A).

Arguments Ret {A} a.
Arguments Vis {A X} e k.

Fixpoint bind {A B : Type} (p : prog A) (f : A -> prog B) : prog B :=
  match p with
  | Ret a => f a
  | Vis e k => Vis e (fun x => bind (k x) f)
  end.

Definition call {X : Type} (e : E X) : prog X := Vis e Ret.

(** A call that was made, whatever the type of its answer. *)
Definition event : Type := { X : Type & E X }.

Definition ev {X : Type} (e : E X) : event := existT E X e.

(** The outside: the answer to a call, given the calls made before it
    (oldest first). *)
Definition world : Type := forall X : Type, list event -> E X -> X.

(** Sequential execution from history [h]: the result and the history
    extended by the calls made. *)
Fixpoint exec {A : Type} (w : world) (p : prog A) (h : list event)
  : A * list event :=
  match p with
  | Ret a => (a, h)
  | Vis e k => exec w (k (w _ h e)) (h ++ [ev e])
  end.

(** The calls a program makes when run from history [h], in order. *)
Fixpoint trace {A : Type} (w : world) (p : prog A) (h : list event)
  : list event :=
  match p with
  | Ret _ => []
  | Vis e k => ev e :: trace w (k (w _ h e)) (h ++ [ev e])
  end.

(** ** Tasks running concurrently ([Promise.all])

    A pool holds one program per task, each stopped at the call it is
    waiting on.  A schedule is the order in which pending calls are
    answered: entry [i] answers the call task [i] is waiting on and runs
    the task up to its next call; the history lists the calls in the order
    in which they were answered.  An entry naming a finished or missing
    task changes nothing. *)

Fixpoint set_nth {A : Type} (i : nat) (a : A) (l : list A) : list A :=
  match l, i with
  | [], _ => []
  | _ :: l', O => a :: l'
  | x :: l', S i' => x :: set_nth i' a l'
  end.

Definition pool_step {A : Type} (w : world) (i : nat)
           (st : list (prog A) * list event) : list (prog A) * list event :=
  let (pool, h) := st in
  match nth_error pool i with
  | Some (Vis e k) => (set_nth i (k (w _ h e)) pool, h ++ [ev e])
  | _ => (pool, h)
  end.

Fixpoint run_pool {A : Type} (w : world) (sched : list nat)
         (st : list (prog A) * list event) : list (prog A) * list event :=
  match sched with
  | [] => st
  | i :: sched' => run_pool w sched' (pool_step w i st)
  end.

(** The array [Promise.all] resolves to: the values of the tasks, in the
    order of the tasks; [None] while some task is still pending. *)
Fixpoint collect {A : Type} (pool : list (prog A)) : option (list A) :=
  match pool with
  | [] => Some []
  | Ret a :: pool' =>
      match collect pool' with
      | Some l => Some (a :: l)
      | None => None
      end
  | Vis _ _ :: _ => None
  end.

(** [Promise.all(tasks)] under a schedule. *)
Definition all {A : Type} (w : world) (sched : list nat)
           (tasks : list (prog A)) (h : list event)
  : option (list A) * list event :=
  let (pool, h') := run_pool w sched (tasks, h) in (collect pool, h').

(** ** Properties over every world

    [ensures P p]: whatever the answers, the value [p] ends with satisfies
    [P].  [within p n]: whatever the answers, [p] ends after at most [n]
    calls. *)

Fixpoint ensures {A : Type} (P : A -> Prop) (p : prog A) : Prop :=
  match p with
  | Ret a => P a
  | Vis e k => forall x, ensures P (k x)
  end.

Fixpoint within {A : Type} (p : prog A) (n : nat) : Prop :=
  match p with
  | Ret _ => True
  | Vis e k =>
      match n with
      | O => False
      | S n' => forall x, within (k x) n'
      end
  end.

(** How often the schedule gives task [i] a turn. *)
Definition turns (sched : list nat) (i : nat) : nat :=
  count_occ Nat.eq_dec sched i.

(** Every one of the first [n] tasks gets at least [k] turns. *)
Definition serves (sched : list nat) (n k : nat) : bool :=
  forallb (fun i => k <=? turns sched i) (seq 0 n).

End WithCalls.

Arguments Ret {E A} a.
Arguments Vis {E A X} e k.
Arguments bind {E A B} p f.
Arguments call {E X} e.
Arguments ev {E X} e.
Arguments exec {E A} w p h.
Arguments trace {E A} w p h.
Arguments set_nth {A} i a l.
Arguments pool_step {E A} w i st.
Arguments run_pool {E A} w sched st.
Arguments collect {E A} pool.
Arguments all {E A} w sched tasks h.
Arguments ensures {E A} P p.
Arguments within {E A} p n.

End Prog.

Import Prog.

Declare Scope prog_scope.
Delimit Scope prog_scope with prog.
Notation "x <- p ;; q" := (bind p (fun x => q))
  (at level 61, p at next level, right associativity) : prog_scope.
Notation "p ;;; q" := (bind p (fun _ => q))
  (at level 61, right associativity) : prog_scope.

(* ================================================================== *)
(** * String functions of the two runtimes

    Strings are sequences of bytes (UTF-8), as Go has them.  The
    TypeScript code only splits on ["/"] and concatenates, which reads
    the same on the bytes. *)
(* ================================================================== *)

Local Open Scope string_scope.

Module Str.

Definition slash : ascii := "/"%char.

(** [s[:n]]: the first [n] bytes (all of [s] when it is shorter; the
    source slices only after checking [len(s) > n]). *)
Fixpoint take (n : nat) (s : string) : string :=
  match n, s with
  | O, _ => EmptyString
  | S _, EmptyString => EmptyString
  | S n', String c s' => String c (take n' s')
  end.

Fixpoint drop (n : nat) (s : string) : string :=
  match n, s with
  | O, _ => s
  | S _, EmptyString => EmptyString
  | S n', String _ s' => drop n' s'
  end.

Fixpoint rev_acc (s acc : string) : string :=
  match s with
  | EmptyString => acc
  | String c s' => rev_acc s' (String c acc)
  end.

Definition rev (s : string) : string := rev_acc s EmptyString.

Fixpoint repeat (c : ascii) (n : nat) : string :=
  match n with
  | O => EmptyString
  | S n' => String c (repeat c n')
  end.

Fixpoint contains (sep : ascii) (s : string) : bool :=
  match s with
  | EmptyString => false
  | String c s' => Ascii.eqb c sep || contains sep s'
  end.

(** The number of occurrences of [sep]. *)
Fixpoint count (sep : ascii) (s : string) : nat :=
  match s with
  | EmptyString => 0
  | String c s' => (if Ascii.eqb c sep then 1 else 0) + count sep s'
  end.

(** The text before and after the first occurrence of [sep]. *)
Fixpoint cut (sep : ascii) (s : string) : option (string * string) :=
  match s with
  | EmptyString => None
  | String c s' =>
      if Ascii.eqb c sep then Some (EmptyString, s')
      else match cut sep s' with
           | Some (a, b) => Some (String c a, b)
           | None => None
           end
  end.

(** Cut at [sep] at most [n] times; the last piece is the remainder. *)
Fixpoint genSplit (sep : ascii) (s : string) (n : nat) : list string :=
  match n with
  | O => [s]
  | S n' =>
      match cut sep s with
      | None => [s]
      | Some (a, b) => a :: genSplit sep b n'
      end
  end.

(** Go, [strings.SplitN(s, sep, n)] for a one-byte separator: at most [n]
    pieces when [n > 0], none when [n = 0], all when [n < 0]. *)
Definition SplitN (s : string) (sep : ascii) (n : Z) : list string :=
  if (n =? 0)%Z then []
  else if (n <? 0)%Z then genSplit sep s (String.length s)
  else genSplit sep s (Z.to_nat n - 1).

(** JavaScript, [s.split(sep)] for a one-character separator: all the
    pieces, at least one. *)
Definition split (s : string) (sep : ascii) : list string :=
  genSplit sep s (String.length s).

(** Go, [strings.TrimPrefix(s, prefix)]. *)
Definition TrimPrefix (s prefix : string) : string :=
  if String.prefix prefix s then drop (String.length prefix) s else s.

(** ** White space (Go, [unicode.IsSpace]; the table of [fmt] is the same)

    The UTF-8 encodings of the white-space runes: U+0009..U+000D, U+0020,
    U+0085, U+00A0, U+1680, U+2000..U+200A, U+2028, U+2029, U+202F,
    U+205F, U+3000. *)

Definition is_ascii_space (c : ascii) : bool :=
  let n := nat_of_ascii c in
  (((9 <=? n) && (n <=? 13)) || (n =? 32))%nat.

(** Width in bytes of the white-space rune [s] starts with, if any. *)
Definition space_width (s : string) : option nat :=
  match s with
  | EmptyString => None
  | String c0 s0 =>
      if is_ascii_space c0 then Some 1
      else
        let b0 := nat_of_ascii c0 in
        match s0 with
        | EmptyString => None
        | String c1 s1 =>
            let b1 := nat_of_ascii c1 in
            if ((b0 =? 194) && ((b1 =? 133) || (b1 =? 160)))%nat then Some 2
            else
              match s1 with
              | EmptyString => None
              | String c2 _ =>
                  let b2 := nat_of_ascii c2 in
                  if ((b0 =? 225) && (b1 =? 154) && (b2 =? 128))%nat
                  then Some 3
                  else if ((b0 =? 226) && (b1 =? 128)
                           && (((128 <=? b2) && (b2 <=? 138))
                               || (b2 =? 168) || (b2 =? 169) || (b2 =? 175)))%nat
                  then Some 3
                  else if ((b0 =? 226) && (b1 =? 129) && (b2 =? 159))%nat
                  then Some 3
                  else if ((b0 =? 227) && (b1 =? 128) && (b2 =? 128))%nat
                  then Some 3
                  else None
              end
        end
  end.

(** The same, read from the end: the argument is the reversed string,
    and the rune found has to end where the string ends. *)
Definition space_width_rev (r : string) : option nat :=
  match r with
  | EmptyString => None
  | String c0 r0 =>
      if is_ascii_space c0 then Some 1
      else
        match r0 with
        | EmptyString => None
        | String c1 r1 =>
            match space_width (String c1 (String c0 EmptyString)) with
            | Some 2 => Some 2
            | _ =>
                match r1 with
                | EmptyString => None
                | String c2 _ =>
                    match space_width
                            (String c2 (String c1 (String c0 EmptyString))) with
                    | Some 3 => Some 3
                    | _ => None
                    end
                end
            end
        end
  end.

Fixpoint trim_left (fuel : nat) (s : string) : string :=
  match fuel with
  | O => s
  | S fuel' =>
      match space_width s with
      | Some w => trim_left fuel' (drop w s)
      | None => s
      end
  end.

Fixpoint trim_left_rev (fuel : nat) (r : string) : string :=
  match fuel with
  | O => r
  | S fuel' =>
      match space_width_rev r with
      | Some w => trim_left_rev fuel' (drop w r)
      | None => r
      end
  end.

(** Go, [strings.TrimSpace(s)]: [s] without its leading and trailing
    white space.  Each round removes at least one byte, so the length of
    the string is fuel enough. *)
Definition TrimSpace (s : string) : string :=
  let l := trim_left (String.length s) s in
  rev (trim_left_rev (String.length l) (rev l)).

End Str.

(* ================================================================== *)
(** * Go, [fmt.Sscanf(input, "%x", &result)] with [result] an [int]

    The scanner skips leading white space (a newline is an error for
    [Sscanf]), accepts one sign, then takes the longest run of characters
    of ["0123456789aAbBcCdDeEfF_"] and hands the token to
    [strconv.ParseInt(tok, 16, 64)].  What follows the token in the input
    is left unread.  [None] stands for a returned error, in which case the
    destination keeps its value.  An [int] has 64 bits. *)
(* ================================================================== *)

Module Fmt.

Definition newline : ascii := "010"%char.

Definition hex_value (c : ascii) : option Z :=
  let n := nat_of_ascii c in
  if ((48 <=? n) && (n <=? 57))%nat then Some (Z.of_nat (n - 48))
  else if ((97 <=? n) && (n <=? 102))%nat then Some (Z.of_nat (n - 87))
  else if ((65 <=? n) && (n <=? 70))%nat then Some (Z.of_nat (n - 55))
  else None.

Definition underscore : ascii := "_"%char.

(** A character of [hexadecimalDigits]. *)
Definition accepted (c : ascii) : bool :=
  match hex_value c with
  | Some _ => true
  | None => Ascii.eqb c underscore
  end.

(** [ss.SkipSpace]. *)
Fixpoint SkipSpace (fuel : nat) (s : string) : option string :=
  match fuel with
  | O => Some s
  | S fuel' =>
      match s with
      | EmptyString => Some s
      | String c _ =>
          if Ascii.eqb c newline then None
          else match Str.space_width s with
               | Some w => SkipSpace fuel' (Str.drop w s)
               | None => Some s
               end
      end
  end.

(** The longest prefix of accepted characters. *)
Fixpoint scanNumber (s : string) : string :=
  match s with
  | EmptyString => EmptyString
  | String c s' => if accepted c then String c (scanNumber s') else EmptyString
  end.

(** [strconv.ParseUint(s, 16, 64)] without its range check: the value of
    a non-empty string of hexadecimal digits. *)
Fixpoint digits_value (s : string) (acc : Z) : option Z :=
  match s with
  | EmptyString => Some acc
  | String c s' =>
      match hex_value c with
      | Some d => digits_value s' (16 * acc + d)%Z
      | None => None
      end
  end.

(** The number a string of hexadecimal digits writes, and whether a string
    is made of such digits only. *)
Definition hex_number (s : string) : Z :=
  match digits_value s 0 with
  | Some v => v
  | None => 0%Z
  end.

Fixpoint all_hex (s : string) : bool :=
  match s with
  | EmptyString => true
  | String c s' =>
      match hex_value c with
      | Some _ => all_hex s'
      | None => false
      end
  end.

Definition cutoff : Z := (2 ^ 63)%Z.

(** [strconv.ParseInt(tok, 16, 64)]. *)
Definition ParseInt16 (neg : bool) (digits : string) : option Z :=
  match digits with
  | EmptyString => None
  | _ =>
      match digits_value digits 0 with
      | None => None
      | Some un =>
          if negb neg && (cutoff <=? un)%Z then None
          else if neg && (cutoff <? un)%Z then None
          else Some (if neg then (- un)%Z else un)
      end
  end.

Definition Sscanf_x (input : string) : option Z :=
  match SkipSpace (String.length input) input with
  | None => None
  | Some EmptyString => None
  | Some (String c rest as s) =>
      let neg := Ascii.eqb c "-"%char in
      let signed := neg || Ascii.eqb c "+"%char in
      let tok := scanNumber (if signed then rest else s) in
      ParseInt16 neg tok
  end.

End Fmt.

(* ================================================================== *)
(** * The Go command *)
(* ================================================================== *)

Module Go.

Definition error : Type := string.

(** A Go pair [(value, err)]: the value when [err == nil], else the
    error. *)
Inductive result (A : Type) : Type :=
| Ok (a : A)
| Err (e : error).
Arguments Ok {A} a.
Arguments Err {A} e.

(** [fmt.Errorf("<prefix>: %w", err)]. *)
Definition wrap (prefix : string) (e : error) : error := prefix ++ ": " ++ e.

(** [%d] of an integer. *)
Definition itoa (n : Z) : string := NilZero.string_of_int (Z.to_int n).

Module Contributor.
Record t : Type := mk { Avatar : string; Name : string; URL : string }.
End Contributor.

Module TrendingRepo.
Record t : Type := mk {
  Title : string;
  URL : string;
  Description : string;
  Language : string;
  LanguageColor : string;
  Stars : string;
  Forks : string;
  AddStars : string;
  Contributors : list Contributor.t
}.
End TrendingRepo.

Module TrendingRepoWithSummary.
Record t : Type := mk {
  Title : string;
  URL : string;
  Description : string;
  Summary : string;
  Language : string;
  LanguageColor : string;
  Stars : string;
  Forks : string;
  AddStars : string;
  Contributors : list Contributor.t
}.
End TrendingRepoWithSummary.

Module TrendingAPIResponse.
Record t : Type := mk { Items : list TrendingRepo.t }.
End TrendingAPIResponse.

Module Output.
Record t : Type := mk {
  Items : list TrendingRepoWithSummary.t;
  GeneratedAt : string
}.
End Output.

Module DiscordEmbedField.
Record t : Type := mk { Name : string; Value : string; Inline : bool }.
End DiscordEmbedField.

Module DiscordEmbed.
Record t : Type := mk {
  Title : string;
  Description : string;
  URL : string;
  Color : Z;
  Fields : list DiscordEmbedField.t;
  Timestamp : string
}.
End DiscordEmbed.

Module DiscordWebhookPayload.
Record t : Type := mk { Content : string; Embeds : list DiscordEmbed.t }.
End DiscordWebhookPayload.

(** The HTTP client of the source only carries a timeout. *)
Module OllamaClient.
Record t : Type := mk { BaseURL : string; Model : string }.
End OllamaClient.

Module OllamaRequest.
Record t : Type := mk { Model : string; Prompt : string; Stream : bool }.
End OllamaRequest.

Module OllamaResponse.
Record t : Type := mk { Response : string }.
End OllamaResponse.

(** A [time.Time], known by what [Format] renders it to. *)
Module Time.
Record t : Type := mk { Format : string -> string }.
End Time.

(** An [*http.Response]: its status and what decoding its body as JSON
    gives. *)
Module Response.
Record t (B : Type) : Type := mk { StatusCode : Z; Decode : result B }.
Arguments mk {B} _ _.
Arguments StatusCode {B} _.
Arguments Decode {B} _.
End Response.

(** What [client.Repositories.GetReadme] returns on success: a value
    whose [GetContent] is the decoded text or an error. *)
Module RepositoryContent.
Record t : Type := mk { GetContent : result string }.
End RepositoryContent.

(** The calls to the outside.  [NewRequest] is
    [http.NewRequestWithContext], which refuses a URL it cannot parse;
    the three [Do] calls send a request whose body is the JSON encoding of
    the value they carry.  Log lines are not recorded. *)
Inductive E : Type -> Type :=
| Getenv (key : string) : E string
| NewRequest (method url : string) : E (result unit)
| DoTrending (url : string) : E (result (Response.t TrendingAPIResponse.t))
| GetReadme (owner name : string) : E (result RepositoryContent.t)
| DoOllama (url : string) (body : OllamaRequest.t)
  : E (result (Response.t OllamaResponse.t))
| DoDiscord (url : string) (payload : DiscordWebhookPayload.t) : E (result Z)
| Now : E Time.t
| WriteJSON (path : string) (data : Output.t) : E (result unit)
| WriteRSS (path : string) (repos : list TrendingRepoWithSummary.t)
           (generatedAt : Time.t) : E (result unit)
| Sleep (milliseconds : Z) : E unit.

Local Open Scope prog_scope.

Definition trendingAPIURL : string :=
  "https://raw.githubusercontent.com/isboyjc/github-trending-api/main/data/daily/all.json".
Definition outputPath : string := "./public/data.json".
Definition feedPath : string := "./public/feed.xml".
Definition defaultOllamaURL : string := "http://localhost:11434".
Definition RFC3339 : string := "2006-01-02T15:04:05Z07:00".

Definition StatusOK : Z := 200.

Definition fetchTrendingRepos : prog E (result (list TrendingRepo.t)) :=
  req <- call (NewRequest "GET" trendingAPIURL) ;;
  match req with
  | Err e => Ret (Err (wrap "create request" e))
  | Ok _ =>
      resp <- call (DoTrending trendingAPIURL) ;;
      match resp with
      | Err e => Ret (Err (wrap "do request" e))
      | Ok resp =>
          if negb (Response.StatusCode resp =? StatusOK)%Z
          then Ret (Err ("unexpected status: " ++ itoa (Response.StatusCode resp)))
          else match Response.Decode resp with
               | Err e => Ret (Err (wrap "decode response" e))
               | Ok apiResp => Ret (Ok (TrendingAPIResponse.Items apiResp))
               end
      end
  end.

Definition fetchReadme (owner name : string) : prog E (result string) :=
  r <- call (GetReadme owner name) ;;
  match r with
  | Err e => Ret (Err (wrap "get readme" e))
  | Ok readme =>
      match RepositoryContent.GetContent readme with
      | Err e => Ret (Err (wrap "get content" e))
      | Ok content => Ret (Ok content)
      end
  end.

#[warnings="-abstract-large-number"] Definition maxReadmeLen : nat := 10000.

Definition noDescription : string := "説明なし".
Definition summaryFailed : string := "要約失敗".

Definition nl : string := String Fmt.newline EmptyString.

(** The text before [%s] in the format string of the prompt. *)
Definition promptHead : string :=
  "以下のREADMEの内容を日本語で短く要約せよ。100文字以内で" ++ nl ++ nl.

(** [(c *OllamaClient) Summarize(ctx, readme)]. *)
Definition Summarize (c : OllamaClient.t) (readme : string)
  : prog E (result string) :=
  if (readme =? EmptyString)%string then Ret (Ok noDescription)
  else
    let readme :=
      if (maxReadmeLen <? String.length readme)%nat
      then Str.take maxReadmeLen readme
      else readme in
    let prompt := promptHead ++ readme in
    let reqBody :=
      OllamaRequest.mk (OllamaClient.Model c) prompt false in
    let url := OllamaClient.BaseURL c ++ "/api/generate" in
    req <- call (NewRequest "POST" url) ;;
    match req with
    | Err e => Ret (Err (wrap "create request" e))
    | Ok _ =>
        resp <- call (DoOllama url reqBody) ;;
        match resp with
        | Err e => Ret (Err (wrap "do request" e))
        | Ok resp =>
            if negb (Response.StatusCode resp =? StatusOK)%Z
            then Ret (Err ("unexpected status: "
                           ++ itoa (Response.StatusCode resp)))
            else
              match Response.Decode resp with
              | Err e => Ret (Err (wrap "decode response" e))
              | Ok ollamaResp =>
                  if (OllamaResponse.Response ollamaResp =? EmptyString)%string
                  then Ret (Ok summaryFailed)
                  else Ret (Ok (Str.TrimSpace
                                  (OllamaResponse.Response ollamaResp)))
              end
        end
    end.

(** The struct literal [run] appends to [results]. *)
Definition withSummary (repo : TrendingRepo.t) (summary : string)
  : TrendingRepoWithSummary.t :=
  TrendingRepoWithSummary.mk
    (TrendingRepo.Title repo)
    (TrendingRepo.URL repo)
    (TrendingRepo.Description repo)
    summary
    (TrendingRepo.Language repo)
    (TrendingRepo.LanguageColor repo)
    (TrendingRepo.Stars repo)
    (TrendingRepo.Forks repo)
    (TrendingRepo.AddStars repo)
    (TrendingRepo.Contributors repo).

(** What [run] keeps of the two results of [Summarize]. *)
Definition summaryOr (s : result string) : string :=
  match s with
  | Err _ => summaryFailed
  | Ok summary => summary
  end.

(** The body of the loop of [run] over the repositories: [None] is its
    [continue], [Some] the element it appends to [results]. *)
Definition processRepo (ollamaClient : OllamaClient.t) (repo : TrendingRepo.t)
  : prog E (option TrendingRepoWithSummary.t) :=
  match Str.SplitN (TrendingRepo.Title repo) Str.slash 2 with
  | [owner; name] =>
      r <- fetchReadme owner name ;;
      let readme :=
        match r with
        | Err _ => TrendingRepo.Description repo
        | Ok readme => readme
        end in
      s <- Summarize ollamaClient readme ;;
      let summary :=
        match s with
        | Err _ => summaryFailed
        | Ok summary => summary
        end in
      Ret (Some (TrendingRepoWithSummary.mk
                   (TrendingRepo.Title repo)
                   (TrendingRepo.URL repo)
                   (TrendingRepo.Description repo)
                   summary
                   (TrendingRepo.Language repo)
                   (TrendingRepo.LanguageColor repo)
                   (TrendingRepo.Stars repo)
                   (TrendingRepo.Forks repo)
                   (TrendingRepo.AddStars repo)
                   (TrendingRepo.Contributors repo)))
  | _ => Ret None
  end.

(** The loop itself, [results] being the slice built so far. *)
Fixpoint processRepos (ollamaClient : OllamaClient.t)
         (repos : list TrendingRepo.t)
         (results : list TrendingRepoWithSummary.t)
  : prog E (list TrendingRepoWithSummary.t) :=
  match repos with
  | [] => Ret results
  | repo :: repos' =>
      r <- processRepo ollamaClient repo ;;
      match r with
      | None => processRepos ollamaClient repos' results
      | Some item => processRepos ollamaClient repos' (results ++ [item])%list
      end
  end.

(** [languageToColor]: the destination of [Sscanf] starts at 0 and the
    error [Sscanf] returns is dropped. *)
Definition defaultColor : Z := 0x7289DA.

Definition languageToColor (htmlColor : string) : Z :=
  if (htmlColor =? EmptyString)%string then defaultColor
  else
    let color := Str.TrimPrefix htmlColor "#" in
    match Fmt.Sscanf_x color with
    | Some result => result
    | None => 0%Z
    end.

Definition reposPerMessage : nat := 1.

Definition unknownLanguage : string := "不明".

Definition buildEmbed (repo : TrendingRepoWithSummary.t) : DiscordEmbed.t :=
  let lang :=
    if (TrendingRepoWithSummary.Language repo =? EmptyString)%string
    then unknownLanguage
    else TrendingRepoWithSummary.Language repo in
  DiscordEmbed.mk
    (TrendingRepoWithSummary.Title repo)
    (TrendingRepoWithSummary.Summary repo)
    (TrendingRepoWithSummary.URL repo)
    (languageToColor (TrendingRepoWithSummary.LanguageColor repo))
    [ DiscordEmbedField.mk "言語" lang true;
      DiscordEmbedField.mk "スター"
        (TrendingRepoWithSummary.Stars repo ++ " (+"
         ++ TrendingRepoWithSummary.AddStars repo ++ ")") true ]
    EmptyString.

(** The loop of [buildDiscordMessages]: [rest] is [repos[i:]]; every
    round takes [repos[i:end]] off it. *)
Fixpoint buildLoop (fuel : nat) (rest : list TrendingRepoWithSummary.t)
         (messages : list DiscordWebhookPayload.t)
  : list DiscordWebhookPayload.t :=
  match fuel, rest with
  | O, _ => messages
  | _, [] => messages
  | S fuel', _ =>
      let batch := firstn reposPerMessage rest in
      buildLoop fuel' (skipn reposPerMessage rest)
        (messages ++ [DiscordWebhookPayload.mk EmptyString
                        (map buildEmbed batch)])%list
  end.

Definition buildDiscordMessages (repos : list TrendingRepoWithSummary.t)
           (generatedAt : Time.t) : list DiscordWebhookPayload.t :=
  buildLoop (List.length repos) repos [].

Definition postDiscordWebhook (webhookURL : string)
           (payload : DiscordWebhookPayload.t) : prog E (result unit) :=
  req <- call (NewRequest "POST" webhookURL) ;;
  match req with
  | Err e => Ret (Err (wrap "create request" e))
  | Ok _ =>
      resp <- call (DoDiscord webhookURL payload) ;;
      match resp with
      | Err e => Ret (Err (wrap "do request" e))
      | Ok status =>
          if ((status <? 200) || (300 <=? status))%Z
          then Ret (Err ("unexpected status: " ++ itoa status))
          else Ret (Ok tt)
      end
  end.

(** The loop of [sendDiscordNotification]; [i] is the index of the first
    message of [messages], [total] the number of all messages. *)
Fixpoint sendLoop (webhookURL : string) (i total : nat)
         (messages : list DiscordWebhookPayload.t) : prog E unit :=
  match messages with
  | [] => Ret tt
  | msg :: messages' =>
      r <- postDiscordWebhook webhookURL msg ;;
      match r with
      | Err _ => sendLoop webhookURL (S i) total messages'
      | Ok _ =>
          (if (i <? total - 1)%nat then call (Sleep 500) else Ret tt) ;;;
          sendLoop webhookURL (S i) total messages'
      end
  end.

Definition sendDiscordNotification (webhookURL : string)
           (repos : list TrendingRepoWithSummary.t) (generatedAt : Time.t)
  : prog E unit :=
  if (webhookURL =? EmptyString)%string then Ret tt
  else
    let messages := buildDiscordMessages repos generatedAt in
    sendLoop webhookURL 0 (List.length messages) messages.

(** [run]: [Ok tt] is the [nil] it returns. *)
Definition run : prog E (result unit) :=
  ollamaHost <- call (Getenv "OLLAMA_HOST") ;;
  let ollamaURL :=
    if (ollamaHost =? EmptyString)%string then defaultOllamaURL
    else ollamaHost in
  ollamaModel <- call (Getenv "OLLAMA_MODEL") ;;
  if (ollamaModel =? EmptyString)%string
  then Ret (Err "OLLAMA_MODEL is not set")
  else
    discordWebhookURL <- call (Getenv "DISCORD_WEBHOOK_URL") ;;
    let ollamaClient := OllamaClient.mk ollamaURL ollamaModel in
    fetched <- fetchTrendingRepos ;;
    match fetched with
    | Err e => Ret (Err (wrap "failed to fetch trending repos" e))
    | Ok repos =>
        results <- processRepos ollamaClient repos [] ;;
        generatedAt <- call Now ;;
        let output :=
          Output.mk results (Time.Format generatedAt RFC3339) in
        written <- call (WriteJSON outputPath output) ;;
        match written with
        | Err e => Ret (Err (wrap "failed to write output" e))
        | Ok _ =>
            rss <- call (WriteRSS feedPath results generatedAt) ;;
            match rss with
            | Err e => Ret (Err (wrap "failed to write RSS" e))
            | Ok _ =>
                sendDiscordNotification discordWebhookURL results
                  generatedAt ;;;
                Ret (Ok tt)
            end
        end
    end.


(** ** What a history shows *)

(** The prompts sent to the generation backend. *)
Definition prompt_of (e : event E) : list string :=
  match projT2 e with
  | DoOllama _ body => [OllamaRequest.Prompt body]
  | _ => []
  end.

Definition prompts (h : list (event E)) : list string := flat_map prompt_of h.

(** The fields [processRepo] copies. *)
Definition source (r : TrendingRepoWithSummary.t) : TrendingRepo.t :=
  TrendingRepo.mk
    (TrendingRepoWithSummary.Title r)
    (TrendingRepoWithSummary.URL r)
    (TrendingRepoWithSummary.Description r)
    (TrendingRepoWithSummary.Language r)
    (TrendingRepoWithSummary.LanguageColor r)
    (TrendingRepoWithSummary.Stars r)
    (TrendingRepoWithSummary.Forks r)
    (TrendingRepoWithSummary.AddStars r)
    (TrendingRepoWithSummary.Contributors r).

Definition hasSeparator (repo : TrendingRepo.t) : bool :=
  Str.contains Str.slash (TrendingRepo.Title repo).

(** Field by field, [item] is [repo]. *)
Definition sameFields (item : TrendingRepoWithSummary.t) (repo : TrendingRepo.t)
  : Prop :=
  TrendingRepoWithSummary.Title item = TrendingRepo.Title repo
  /\ TrendingRepoWithSummary.URL item = TrendingRepo.URL repo
  /\ TrendingRepoWithSummary.Description item = TrendingRepo.Description repo
  /\ TrendingRepoWithSummary.Language item = TrendingRepo.Language repo
  /\ TrendingRepoWithSummary.LanguageColor item = TrendingRepo.LanguageColor repo
  /\ TrendingRepoWithSummary.Stars item = TrendingRepo.Stars repo
  /\ TrendingRepoWithSummary.Forks item = TrendingRepo.Forks repo
  /\ TrendingRepoWithSummary.AddStars item = TrendingRepo.AddStars repo
  /\ TrendingRepoWithSummary.Contributors item = TrendingRepo.Contributors repo.

End Go.


(* ================================================================== *)
(** * The TypeScript worker *)
(* ================================================================== *)

Module TS.

(** How an awaited promise settles: fulfilled with a value, or rejected
    (which [await] rethrows). *)
Inductive result (A : Type) : Type :=
| Returned (a : A)
| Thrown (e : string).
Arguments Returned {A} a.
Arguments Thrown {A} e.

Module Contributor.
Record t : Type := mk { avatar : string; name : string; url : string }.
End Contributor.

Module TrendingRepo.
Record t : Type := mk {
  title : string;
  url : string;
  description : string;
  language : option string;
  languageColor : option string;
  stars : string;
  forks : string;
  addStars : string;
  contributors : list Contributor.t
}.
End TrendingRepo.

(** [TrendingRepo & { summary: string }]. *)
Module TrendingRepoWithSummary.
Record t : Type := mk {
  title : string;
  url : string;
  description : string;
  language : option string;
  languageColor : option string;
  stars : string;
  forks : string;
  addStars : string;
  contributors : list Contributor.t;
  summary : string
}.
End TrendingRepoWithSummary.

Module TrendingData.
Record t : Type := mk {
  items : list TrendingRepoWithSummary.t;
  generatedAt : string
}.
End TrendingData.

(** A fetch [Response]: [ok], how [text()] settles, and how [json()]
    settles, read as [{ items?: TrendingRepo[] }]: [None] when the value
    has no array under [items]. *)
Module Response.
Record t : Type := mk {
  ok : bool;
  text : result string;
  json : result (option (list TrendingRepo.t))
}.
End Response.

(** The calls to the outside; [generateContent] answers with
    [response.text], a string or [undefined]. *)
Inductive E : Type -> Type :=
| fetch (url : string) : E (result Response.t)
| generateContent (model contents : string) : E (result (option string))
| toISOString : E string
| put (key : string) (data : TrendingData.t) : E (result unit).

Local Open Scope prog_scope.

Definition KV_KEY : string := "github-trending-data".

Definition trendingURL : string :=
  "https://raw.githubusercontent.com/isboyjc/github-trending-api/main/data/daily/all.json".

Definition fetchTrending : prog E (result (list TrendingRepo.t)) :=
  r <- call (fetch trendingURL) ;;
  match r with
  | Thrown e => Ret (Thrown e)
  | Returned res =>
      if negb (Response.ok res) then Ret (Thrown "Failed to fetch trending data")
      else match Response.json res with
           | Thrown e => Ret (Thrown e)
           | Returned None => Ret (Thrown "Invalid data format")
           | Returned (Some items) => Ret (Returned items)
           end
  end.

(** A value placed in a template literal; [None] is [undefined]. *)
Definition interpolate (v : option string) : string :=
  match v with
  | Some s => s
  | None => "undefined"
  end.

Definition readmeURL (owner name : option string) (branch : string) : string :=
  "https://raw.githubusercontent.com/" ++ interpolate owner ++ "/"
  ++ interpolate name ++ "/" ++ branch ++ "/README.md".

Definition branches : list string := ["main"; "master"].

(** The text a candidate yields: the request is answered, the answer is
    [ok] and its body can be read. *)
Definition body (r : result Response.t) : option string :=
  match r with
  | Returned res =>
      if Response.ok res then
        match Response.text res with
        | Returned text => Some text
        | Thrown _ => None
        end
      else None
  | Thrown _ => None
  end.

(** The loop of [fetchReadme] over the branches left to try; [None] is
    [null]. *)
Fixpoint fetchReadmeFrom (owner name : option string) (todo : list string)
  : prog E (option string) :=
  match todo with
  | [] => Ret None
  | branch :: todo' =>
      r <- call (fetch (readmeURL owner name branch)) ;;
      match r with
      | Returned res =>
          if Response.ok res then
            match Response.text res with
            | Returned text => Ret (Some text)
            | Thrown _ => fetchReadmeFrom owner name todo'
            end
          else fetchReadmeFrom owner name todo'
      | Thrown _ => fetchReadmeFrom owner name todo'
      end
  end.

Definition fetchReadme (owner name : option string) : prog E (option string) :=
  fetchReadmeFrom owner name branches.

Definition summaryFailed : string := "要約失敗".

Definition nl : string := String Fmt.newline EmptyString.

Definition promptHead : string :=
  "以下のREADMEの内容を日本語で短く要約せよ。100文字以内で" ++ nl ++ nl.

Definition model : string := "gemini-2.0-flash".

(** [summarizeReadme]; the client object is built from the key without
    any call to the outside. *)
Definition summarizeReadme (readme apiKey : string) : prog E string :=
  r <- call (generateContent model (promptHead ++ readme)) ;;
  match r with
  | Returned (Some text) =>
      if (text =? EmptyString)%string then Ret summaryFailed else Ret text
  | Returned None => Ret summaryFailed
  | Thrown _ => Ret summaryFailed
  end.

(** JavaScript truthiness of a string; [null] is the [None] branch of the
    caller. *)
Definition truthy (s : string) : bool := negb (s =? EmptyString)%string.

(** [{ ...repo, summary }]. *)
Definition withSummary (repo : TrendingRepo.t) (summary : string)
  : TrendingRepoWithSummary.t :=
  TrendingRepoWithSummary.mk
    (TrendingRepo.title repo)
    (TrendingRepo.url repo)
    (TrendingRepo.description repo)
    (TrendingRepo.language repo)
    (TrendingRepo.languageColor repo)
    (TrendingRepo.stars repo)
    (TrendingRepo.forks repo)
    (TrendingRepo.addStars repo)
    (TrendingRepo.contributors repo)
    summary.

(** [const [owner, name] = title.split("/")]: the first two pieces, a
    missing one being [undefined]. *)
Definition ownerAndName (title : string) : option string * option string :=
  let parts := Str.split title Str.slash in
  (nth_error parts 0, nth_error parts 1).

(** The callback [getTrendingReposWithSummary] maps over the
    repositories. *)
Definition enrichRepo (apiKey : string) (repo : TrendingRepo.t)
  : prog E TrendingRepoWithSummary.t :=
  let owner := fst (ownerAndName (TrendingRepo.title repo)) in
  let name := snd (ownerAndName (TrendingRepo.title repo)) in
  readme <- fetchReadme owner name ;;
  summary <- match readme with
             | Some text =>
                 if truthy text then summarizeReadme text apiKey
                 else Ret summaryFailed
             | None => Ret summaryFailed
             end ;;
  Ret (withSummary repo summary).

(** How a whole asynchronous function ends under a schedule: besides
    returning and throwing, it is still [Pending] when the schedule stops
    before every task is done. *)
Inductive outcome (A : Type) : Type :=
| Done (r : result A)
| Pending.
Arguments Done {A} r.
Arguments Pending {A}.

(** [getTrendingReposWithSummary]: [fetchTrending], then [Promise.all] over
    one task per repository, the pending calls being answered in the order
    [sched] gives. *)
Definition getTrendingReposWithSummary (apiKey : string) (w : world E)
           (sched : list nat) (h : list (event E))
  : outcome (list TrendingRepoWithSummary.t) * list (event E) :=
  let (fetched, h1) := exec w fetchTrending h in
  match fetched with
  | Thrown e => (Done (Thrown e), h1)
  | Returned repos =>
      let (settled, h2) := all w sched (map (enrichRepo apiKey) repos) h1 in
      match settled with
      | Some reposWithSummary => (Done (Returned reposWithSummary), h2)
      | None => (Pending, h2)
      end
  end.

(** The [scheduled] handler. *)
Definition scheduled (apiKey : string) (w : world E) (sched : list nat)
           (h : list (event E)) : outcome unit * list (event E) :=
  let (r, h1) := getTrendingReposWithSummary apiKey w sched h in
  match r with
  | Pending => (Pending, h1)
  | Done (Thrown e) => (Done (Thrown e), h1)
  | Done (Returned repos) =>
      let (generatedAt, h2) := exec w (call toISOString) h1 in
      let data := TrendingData.mk repos generatedAt in
      let (stored, h3) := exec w (call (put KV_KEY data)) h2 in
      match stored with
      | Thrown e => (Done (Thrown e), h3)
      | Returned _ => (Done (Returned tt), h3)
      end
  end.

(** ** What a history shows *)

(** The texts sent to the generation backend. *)
Definition contents_of (e : event E) : list string :=
  match projT2 e with
  | generateContent _ contents => [contents]
  | _ => []
  end.

Definition generated (h : list (event E)) : list string :=
  flat_map contents_of h.

(** The fields the spread copies. *)
Definition source (r : TrendingRepoWithSummary.t) : TrendingRepo.t :=
  TrendingRepo.mk
    (TrendingRepoWithSummary.title r)
    (TrendingRepoWithSummary.url r)
    (TrendingRepoWithSummary.description r)
    (TrendingRepoWithSummary.language r)
    (TrendingRepoWithSummary.languageColor r)
    (TrendingRepoWithSummary.stars r)
    (TrendingRepoWithSummary.forks r)
    (TrendingRepoWithSummary.addStars r)
    (TrendingRepoWithSummary.contributors r).

Definition hasSeparator (repo : TrendingRepo.t) : bool :=
  Str.contains Str.slash (TrendingRepo.title repo).

(** Field by field, [item] is [repo]. *)
Definition sameFields (item : TrendingRepoWithSummary.t) (repo : TrendingRepo.t)
  : Prop :=
  TrendingRepoWithSummary.title item = TrendingRepo.title repo
  /\ TrendingRepoWithSummary.url item = TrendingRepo.url repo
  /\ TrendingRepoWithSummary.description item = TrendingRepo.description repo
  /\ TrendingRepoWithSummary.language item = TrendingRepo.language repo
  /\ TrendingRepoWithSummary.languageColor item = TrendingRepo.languageColor repo
  /\ TrendingRepoWithSummary.stars item = TrendingRepo.stars repo
  /\ TrendingRepoWithSummary.forks item = TrendingRepo.forks repo
  /\ TrendingRepoWithSummary.addStars item = TrendingRepo.addStars repo
  /\ TrendingRepoWithSummary.contributors item = TrendingRepo.contributors repo.

End TS.

(* ================================================================== *)
(** * Worlds and inputs used as examples *)
(* ================================================================== *)

Module Examples.

Local Open Scope list_scope.

(** A Go world that serves [items] as the trending list, answers every
    README request with [readme] and every generation request with status
    200 and the text [reply]; everything else succeeds. *)
Definition goWorld (items : list Go.TrendingRepo.t)
           (readme : Go.result Go.RepositoryContent.t) (reply : string)
  : world Go.E :=
  fun X h e =>
    match e in Go.E X return X with
    | Go.Getenv key => if (key =? "OLLAMA_MODEL")%string then "model"
                       else EmptyString
    | Go.NewRequest _ _ => Go.Ok tt
    | Go.DoTrending _ =>
        Go.Ok (Go.Response.mk 200 (Go.Ok (Go.TrendingAPIResponse.mk items)))
    | Go.GetReadme _ _ => readme
    | Go.DoOllama _ _ =>
        Go.Ok (Go.Response.mk 200 (Go.Ok (Go.OllamaResponse.mk reply)))
    | Go.DoDiscord _ _ => Go.Ok 204%Z
    | Go.Now => Go.Time.mk (fun _ => "2026-01-01T00:00:00Z")
    | Go.WriteJSON _ _ => Go.Ok tt
    | Go.WriteRSS _ _ _ => Go.Ok tt
    | Go.Sleep _ => tt
    end.

Definition goClient : Go.OllamaClient.t :=
  Go.OllamaClient.mk Go.defaultOllamaURL "model".

Definition goNoReadme : Go.result Go.RepositoryContent.t := Go.Err "404".

Definition goReadme (text : string) : Go.result Go.RepositoryContent.t :=
  Go.Ok (Go.RepositoryContent.mk (Go.Ok text)).

Definition goRepo (title description : string) : Go.TrendingRepo.t :=
  Go.TrendingRepo.mk title ("https://github.com/" ++ title) description
    "Go" "#00ADD8" "10" "1" "2" [].

(** A TypeScript world that serves [items] as the trending list, answers
    every README request with [readme] and every generation request with
    [reply]. *)
Definition tsWorld (items : list TS.TrendingRepo.t)
           (readme : TS.result TS.Response.t)
           (reply : TS.result (option string)) : world TS.E :=
  fun X h e =>
    match e in TS.E X return X with
    | TS.fetch url =>
        if (url =? TS.trendingURL)%string
        then TS.Returned (TS.Response.mk true (TS.Thrown "not text")
                            (TS.Returned (Some items)))
        else readme
    | TS.generateContent _ _ => reply
    | TS.toISOString => "2026-01-01T00:00:00.000Z"
    | TS.put _ _ => TS.Returned tt
    end.

Definition tsNoReadme : TS.result TS.Response.t :=
  TS.Returned (TS.Response.mk false (TS.Returned "404: Not Found")
                 (TS.Thrown "not JSON")).

Definition tsReadme (text : string) : TS.result TS.Response.t :=
  TS.Returned (TS.Response.mk true (TS.Returned text) (TS.Thrown "not JSON")).

Definition tsRepo (title description : string) : TS.TrendingRepo.t :=
  TS.TrendingRepo.mk title ("https://github.com/" ++ title) description
    (Some "Go") (Some "#00ADD8") "10" "1" "2" [].

(** Every one of [n] tasks gets three turns, one task after the other. *)
Fixpoint inTurn (n : nat) : list nat :=
  match n with
  | O => []
  | S n' => inTurn n' ++ [n'; n'; n']
  end.


(** Two tasks, the second always first. *)
Definition interleaved : list nat := [1; 0; 1; 0; 1; 0].

End Examples.

(* ================================================================== *)
(** * More worlds used as examples *)
(* ================================================================== *)

Module Cases.

Local Open Scope list_scope.

(** A Go world with the environment [env], the trending list [items], one
    answer [readme] to every README request, the reply [reply] of the
    generation backend and the answer [discord] of the webhook. *)
Definition goWorld (env : string -> string) (items : list Go.TrendingRepo.t)
           (readme : Go.result Go.RepositoryContent.t) (reply : string)
           (discord : Go.result Z) : world Go.E :=
  fun X h e =>
    match e in Go.E X return X with
    | Go.Getenv key => env key
    | Go.NewRequest _ _ => Go.Ok tt
    | Go.DoTrending _ =>
        Go.Ok (Go.Response.mk 200 (Go.Ok (Go.TrendingAPIResponse.mk items)))
    | Go.GetReadme _ _ => readme
    | Go.DoOllama _ _ =>
        Go.Ok (Go.Response.mk 200 (Go.Ok (Go.OllamaResponse.mk reply)))
    | Go.DoDiscord _ _ => discord
    | Go.Now => Go.Time.mk (fun layout => ("2026-01-01 as " ++ layout)%string)
    | Go.WriteJSON _ _ => Go.Ok tt
    | Go.WriteRSS _ _ _ => Go.Ok tt
    | Go.Sleep _ => tt
    end.

Definition noEnv (key : string) : string := EmptyString.

Definition fullEnv (key : string) : string :=
  if (key =? "OLLAMA_HOST")%string then "http://ollama:11434"
  else if (key =? "OLLAMA_MODEL")%string then "gemma"
  else if (key =? "DISCORD_WEBHOOK_URL")%string then "https://discord.test/hook"
  else EmptyString.

Definition feed : list Go.TrendingRepo.t :=
  [Examples.goRepo "a/b" "foo"; Examples.goRepo "bad" "x";
   Examples.goRepo "c/d/e" "bar"].

Definition enriched : list Go.TrendingRepoWithSummary.t :=
  [Go.withSummary (Examples.goRepo "a/b" "foo") "<b>要約</b>";
   Go.withSummary (Examples.goRepo "c/d" "bar") "要約"].

Definition tsEnriched : list TS.TrendingRepoWithSummary.t :=
  [TS.withSummary (Examples.tsRepo "a/b" "foo") "要約";
   TS.withSummary (Examples.tsRepo "c/d" "bar") "要約失敗"].

End Cases.

(* ================================================================== *)
(** * More ways to look at programs and histories *)
(* ================================================================== *)

Module Obs.

Local Open Scope list_scope.

(** [every Q p]: whatever the answers, every call [p] makes satisfies
    [Q]. *)
Fixpoint every {E : Type -> Type} {A : Type} (Q : event E -> Prop)
         (p : prog E A) : Prop :=
  match p with
  | Ret _ => True
  | Vis e k => Q (ev e) /\ forall x, every Q (k x)
  end.

(** [tracks P p]: whatever the answers, the value [p] ends with and the
    calls it made, in order, satisfy [P]. *)
Fixpoint tracks {E : Type -> Type} {A : Type}
         (P : A -> list (event E) -> Prop) (p : prog E A) : Prop :=
  match p with
  | Ret a => P a []
  | Vis e k => forall x, tracks (fun a l => P a (ev e :: l)) (k x)
  end.

(** An outside whose answers do not depend on what was asked before. *)
Definition stateless {E : Type -> Type} (w : world E) : Prop :=
  forall (X : Type) (h h' : list (event E)) (e : E X), w X h e = w X h' e.

(** What a task of a pool ends with in a stateless world. *)
Definition value {E : Type -> Type} {A : Type} (w : world E) (p : prog E A)
  : A :=
  fst (exec w p []).

(** ** Calls of the Go command *)

Definition readme_of (e : event Go.E) : list (string * string) :=
  match projT2 e with
  | Go.GetReadme owner name => [(owner, name)]
  | _ => []
  end.

(** The repositories whose README was asked for. *)
Definition readmes (h : list (event Go.E)) : list (string * string) :=
  flat_map readme_of h.

Definition ollama_of (e : event Go.E) : list (string * Go.OllamaRequest.t) :=
  match projT2 e with
  | Go.DoOllama url body => [(url, body)]
  | _ => []
  end.

(** The requests sent to the generation backend, with their URL. *)
Definition ollamaRequests (h : list (event Go.E))
  : list (string * Go.OllamaRequest.t) :=
  flat_map ollama_of h.

Definition trending_of (e : event Go.E) : list string :=
  match projT2 e with
  | Go.DoTrending url => [url]
  | _ => []
  end.

(** The requests sent for the trending list. *)
Definition trendingRequests (h : list (event Go.E)) : list string :=
  flat_map trending_of h.




Definition post_of (e : event Go.E)
  : list (string * Go.DiscordWebhookPayload.t) :=
  match projT2 e with
  | Go.DoDiscord url payload => [(url, payload)]
  | _ => []
  end.

(** The messages sent to the webhook. *)
Definition posts (h : list (event Go.E))
  : list (string * Go.DiscordWebhookPayload.t) :=
  flat_map post_of h.

Definition request_of (e : event Go.E) : list (string * string) :=
  match projT2 e with
  | Go.NewRequest method url => [(method, url)]
  | _ => []
  end.

(** The requests the command set out to build, sent or not. *)
Definition requests (h : list (event Go.E)) : list (string * string) :=
  flat_map request_of h.

Definition sleep_of (e : event Go.E) : list Z :=
  match projT2 e with
  | Go.Sleep milliseconds => [milliseconds]
  | _ => []
  end.

Definition sleeps (h : list (event Go.E)) : list Z := flat_map sleep_of h.


(** The requests of a client go to its URL and name its model. *)
Definition ofClient (c : Go.OllamaClient.t) (r : string * Go.OllamaRequest.t)
  : Prop :=
  fst r = (Go.OllamaClient.BaseURL c ++ "/api/generate")%string
  /\ Go.OllamaRequest.Model (snd r) = Go.OllamaClient.Model c
  /\ Go.OllamaRequest.Stream (snd r) = false.

(** The owner and name [run] reads off a title, if it reads any. *)
Definition ownerAndName (repo : Go.TrendingRepo.t) : list (string * string) :=
  match Str.SplitN (Go.TrendingRepo.Title repo) Str.slash 2 with
  | [owner; name] => [(owner, name)]
  | _ => []
  end.

(** The kinds of call of the Go command. *)
Inductive kind : Type :=
| KGetenv | KNewRequest | KDoTrending | KGetReadme | KDoOllama | KDoDiscord
| KNow | KWriteJSON | KWriteRSS | KSleep.

Definition kind_of (e : event Go.E) : kind :=
  match projT2 e with
  | Go.Getenv _ => KGetenv
  | Go.NewRequest _ _ => KNewRequest
  | Go.DoTrending _ => KDoTrending
  | Go.GetReadme _ _ => KGetReadme
  | Go.DoOllama _ _ => KDoOllama
  | Go.DoDiscord _ _ => KDoDiscord
  | Go.Now => KNow
  | Go.WriteJSON _ _ => KWriteJSON
  | Go.WriteRSS _ _ _ => KWriteRSS
  | Go.Sleep _ => KSleep
  end.

(** Every call is of one of the kinds [ks]. *)
Definition only (ks : list kind) (e : event Go.E) : Prop := In (kind_of e) ks.

(** ** Calls of the TypeScript worker *)

Definition fetch_of (e : event TS.E) : list string :=
  match projT2 e with
  | TS.fetch url => [url]
  | _ => []
  end.

(** The URLs fetched. *)
Definition fetched (h : list (event TS.E)) : list string :=
  flat_map fetch_of h.

Definition put_of (e : event TS.E) : list (string * TS.TrendingData.t) :=
  match projT2 e with
  | TS.put key data => [(key, data)]
  | _ => []
  end.

(** What was written to the store. *)
Definition stored (h : list (event TS.E)) : list (string * TS.TrendingData.t) :=
  flat_map put_of h.

End Obs.

(* ================================================================== *)
(** * The Go command: the feed document

    [writeRSS] builds an [RSS] value from the repositories and the time of
    generation and hands it to the XML encoder; [rssDocument] is that
    value.  Creating the directory and the file and encoding are the
    [WriteRSS] call of [run]. *)
(* ================================================================== *)

Module GoFeed.

Import Go.

Local Open Scope list_scope.

Module RSSItem.
Record t : Type := mk {
  Title : string;
  Link : string;
  Description : string;
  GUID : string;
  PubDate : string
}.
End RSSItem.

Module RSSChannel.
Record t : Type := mk {
  Title : string;
  Link : string;
  Description : string;
  Language : string;
  PubDate : string;
  Items : list RSSItem.t
}.
End RSSChannel.

Module RSS.
Record t : Type := mk { Version : string; Channel : RSSChannel.t }.
End RSS.

Definition siteURL : string := "https://github-trending-ja.yashikota.com".
Definition RFC1123Z : string := "Mon, 02 Jan 2006 15:04:05 -0700".
Definition dateLayout : string := "2006-01-02".

Definition quote : ascii := "034"%char.
Definition apostrophe : ascii := "039"%char.

(** Go, [html.EscapeString]: the five characters [<], [>], [&], ['] and
    the double quote are replaced by entities. *)
Definition escapeChar (c : ascii) : string :=
  if Ascii.eqb c "&"%char then "&amp;"
  else if Ascii.eqb c apostrophe then "&#39;"
  else if Ascii.eqb c "<"%char then "&lt;"
  else if Ascii.eqb c ">"%char then "&gt;"
  else if Ascii.eqb c quote then "&#34;"
  else String c EmptyString.

Fixpoint EscapeString (s : string) : string :=
  match s with
  | EmptyString => EmptyString
  | String c s' => (escapeChar c ++ EscapeString s')%string
  end.

(** The body of the loop of [writeRSS]. *)
Definition rssItem (pubDate : string) (generatedAt : Time.t)
           (repo : TrendingRepoWithSummary.t) : RSSItem.t :=
  let lang :=
    if (TrendingRepoWithSummary.Language repo =? EmptyString)%string
    then "不明" else TrendingRepoWithSummary.Language repo in
  let description :=
    (EscapeString (TrendingRepoWithSummary.Summary repo)
     ++ "<br><br>言語: " ++ EscapeString lang
     ++ "<br>スター数: " ++ EscapeString (TrendingRepoWithSummary.Stars repo)
     ++ " (+" ++ EscapeString (TrendingRepoWithSummary.AddStars repo)
     ++ ")<br>フォーク数: " ++ EscapeString (TrendingRepoWithSummary.Forks repo))%string in
  RSSItem.mk
    (TrendingRepoWithSummary.Title repo ++ " - "
     ++ TrendingRepoWithSummary.Summary repo)%string
    (TrendingRepoWithSummary.URL repo)
    description
    (TrendingRepoWithSummary.URL repo ++ "-"
     ++ Time.Format generatedAt dateLayout)%string
    pubDate.

Definition rssDocument (repos : list TrendingRepoWithSummary.t)
           (generatedAt : Time.t) : RSS.t :=
  let pubDate := Time.Format generatedAt RFC1123Z in
  let items := map (rssItem pubDate generatedAt) repos in
  RSS.mk "2.0"
    (RSSChannel.mk "GitHub Trending 日本語まとめ" siteURL
       "1日のGitHub Trendingを日本語で紹介" "ja" pubDate items).

(** The characters an escaped text is free of. *)
Definition markup : list ascii := ["<"%char; ">"%char; quote; apostrophe].

End GoFeed.

(* ================================================================== *)
(** * The TypeScript worker: serving the stored data

    The routes [/trending] and [/feed] read the store and answer; the feed
    is built by [generateRSS] with the [rss] package, whose rendering to
    XML is a call to the outside. *)
(* ================================================================== *)

Module TSServe.

Import TS.

Local Open Scope list_scope.
Local Open Scope prog_scope.

(** The options given to [new RSS(...)]; the date is the string given to
    [new Date]. *)
Module FeedOptions.
Record t : Type := mk {
  title : string;
  description : string;
  feed_url : string;
  site_url : string;
  language : string;
  pubDate : string
}.
End FeedOptions.

(** The options given to [feed.item(...)]. *)
Module ItemOptions.
Record t : Type := mk {
  title : string;
  description : string;
  url : string;
  guid : string;
  date : string
}.
End ItemOptions.

(** What a route answers with: a JSON value or a text. *)
Inductive Body : Type :=
| JsonData (data : TrendingData.t)
| JsonError (error : string)
| Text (text : string).

(** A response: its status, its body, and the headers the route gives
    besides those of the framework. *)
Module Reply.
Record t : Type := mk {
  status : Z;
  body : Body;
  headers : list (string * string)
}.
End Reply.

(** The calls to the outside: [get] reads the store as JSON, [None] being
    [null]; [xml] is [feed.xml()] of a feed built with these options and
    items. *)
Inductive E : Type -> Type :=
| get (key : string) : E (result (option TrendingData.t))
| xml (feed : FeedOptions.t) (items : list ItemOptions.t) : E (result string).

Definition nl : string := String Fmt.newline EmptyString.

(** The argument of [feed.item] for one repository. *)
Definition feedItem (generatedAt : string) (repo : TrendingRepoWithSummary.t)
  : ItemOptions.t :=
  let language :=
    match TrendingRepoWithSummary.language repo with
    | Some l => if (l =? EmptyString)%string then "不明" else l
    | None => "不明"
    end in
  ItemOptions.mk
    (TrendingRepoWithSummary.title repo ++ " - "
     ++ TrendingRepoWithSummary.summary repo)%string
    (nl ++ "        " ++ TrendingRepoWithSummary.summary repo
     ++ nl ++ "        <br><br>"
     ++ nl ++ "        言語: " ++ language ++ "<br>"
     ++ nl ++ "        スター数: " ++ TrendingRepoWithSummary.stars repo
     ++ " (+" ++ TrendingRepoWithSummary.addStars repo ++ ")<br>"
     ++ nl ++ "        フォーク数: " ++ TrendingRepoWithSummary.forks repo
     ++ nl ++ "      ")%string
    (TrendingRepoWithSummary.url repo)
    (TrendingRepoWithSummary.url repo ++ "-" ++ generatedAt)%string
    generatedAt.

Definition feedOptions (generatedAt : string) : FeedOptions.t :=
  FeedOptions.mk "GitHub Trending 日本語まとめ"
    "1日のGitHub Trendingを日本語で紹介"
    "https://github-trending-ja.yashikota.com/feed"
    "https://github.com/yashikota/github-trending-ja"
    "ja" generatedAt.

(** [generateRSS]. *)
Definition generateRSS (data : TrendingData.t) : prog E (result string) :=
  let items := TrendingData.items data in
  let generatedAt := TrendingData.generatedAt data in
  call (xml (feedOptions generatedAt) (map (feedItem generatedAt) items)).

(** [app.get("/trending", ...)]. *)
Definition trending : prog E Reply.t :=
  cachedData <- call (get KV_KEY) ;;
  match cachedData with
  | Returned (Some data) => Ret (Reply.mk 200 (JsonData data) [])
  | Returned None =>
      Ret (Reply.mk 503
             (JsonError "No data available. Please wait for the next update.")
             [])
  | Thrown _ => Ret (Reply.mk 500 (JsonError "Internal server error") [])
  end.

(** [app.get("/feed", ...)]. *)
Definition feed : prog E Reply.t :=
  cachedData <- call (get KV_KEY) ;;
  match cachedData with
  | Returned None => Ret (Reply.mk 503 (Text "No data available") [])
  | Returned (Some data) =>
      rssXML <- generateRSS data ;;
      match rssXML with
      | Returned text =>
          Ret (Reply.mk 200 (Text text)
                 [("Content-Type", "application/rss+xml; charset=utf-8");
                  ("Cache-Control", "public, max-age=86400")])
      | Thrown _ => Ret (Reply.mk 500 (Text "Internal server error") [])
      end
  | Thrown _ => Ret (Reply.mk 500 (Text "Internal server error") [])
  end.

(** The items handed to the [rss] package. *)
Definition item_of (e : event E) : list ItemOptions.t :=
  match projT2 e with
  | xml _ items => items
  | _ => []
  end.

Definition feedItems (h : list (event E)) : list ItemOptions.t :=
  flat_map item_of h.

Definition get_of (e : event E) : list string :=
  match projT2 e with
  | get key => [key]
  | _ => []
  end.

(** The keys read from the store. *)
Definition reads (h : list (event E)) : list string := flat_map get_of h.

End TSServe.

(* ================================================================== *)
(** * The home page ([app/routes/home.tsx])

    The effect of [Home] fetches [/trending] and sets the four pieces of
    state; what is rendered is decided by the state. *)
(* ================================================================== *)

Module Home.

Import TS.

Local Open Scope prog_scope.

(** The JSON of the response read as
    [{ items?: TrendingRepoWithSummary[]; generatedAt?: string }]:
    [items] is [None] when it is missing or not an array. *)
Module Payload.
Record t : Type := mk {
  items : option (list TrendingRepoWithSummary.t);
  generatedAt : option string
}.
End Payload.

(** A fetch [Response]: [ok] and how [json()] settles, [None] being a
    value without properties, such as [null]. *)
Module Response.
Record t : Type := mk { ok : bool; json : result (option Payload.t) }.
End Response.

Inductive E : Type -> Type :=
| fetch (url : string) : E (result Response.t).

(** The state of the component. *)
Module State.
Record t : Type := mk {
  repos : option (list TrendingRepoWithSummary.t);
  error : option string;
  loading : bool;
  generatedAt : option string
}.
End State.

Definition initial : State.t := State.mk None None true None.

Definition setRepos (v : list TrendingRepoWithSummary.t) (s : State.t)
  : State.t :=
  State.mk (Some v) (State.error s) (State.loading s) (State.generatedAt s).

Definition setError (v : string) (s : State.t) : State.t :=
  State.mk (State.repos s) (Some v) (State.loading s) (State.generatedAt s).

Definition setLoading (v : bool) (s : State.t) : State.t :=
  State.mk (State.repos s) (State.error s) v (State.generatedAt s).

Definition setGeneratedAt (v : option string) (s : State.t) : State.t :=
  State.mk (State.repos s) (State.error s) (State.loading s) v.

(** [v || null] for a string or [undefined]. *)
Definition orNull (v : option string) : option string :=
  match v with
  | Some s => if (s =? EmptyString)%string then None else Some s
  | None => None
  end.

(** The promise chain of the effect, from state [s]. *)
Definition load (s : State.t) : prog E State.t :=
  r <- call (fetch "/trending") ;;
  let settled :=
    match r with
    | Thrown message => setError message s
    | Returned res =>
        if negb (Response.ok res) then setError "Failed to fetch" s
        else
          match Response.json res with
          | Thrown message => setError message s
          | Returned (Some (Payload.mk (Some items) generatedAt)) =>
              setGeneratedAt (orNull generatedAt) (setRepos items s)
          | Returned _ => setError "Invalid data format" s
          end
    end in
  Ret (setLoading false settled).

(** What [Home] renders. *)
Inductive view : Type :=
| Spinner
| ErrorMessage (error : string)
| Nothing
| Page (generatedAt : option string) (repos : list TrendingRepoWithSummary.t).

Definition render (s : State.t) : view :=
  if State.loading s then Spinner
  else
    match State.error s with
    | Some error =>
        if negb (error =? EmptyString)%string then ErrorMessage error
        else match State.repos s with
             | Some repos => Page (State.generatedAt s) repos
             | None => Nothing
             end
    | None =>
        match State.repos s with
        | Some repos => Page (State.generatedAt s) repos
        | None => Nothing
        end
    end.

End Home.

(* ================================================================== *)
(** * Facts about programs *)
(* ================================================================== *)

Section ProgFacts.

Local Open Scope list_scope.

Variable E : Type -> Type.

Lemma exec_bind (A B : Type) (w : world E) (p : prog E A) (f : A -> prog E B)
      (h : list (event E)) :
  exec w (bind p f) h = exec w (f (fst (exec w p h))) (snd (exec w p h)).
Proof.
  revert h. induction p as [a | X e k IH]; intro h; simpl.
  - reflexivity.
  - apply IH.
Qed.

Lemma trace_bind (A B : Type) (w : world E) (p : prog E A) (f : A -> prog E B)
      (h : list (event E)) :
  trace w (bind p f) h
  = trace w p h ++ trace w (f (fst (exec w p h))) (snd (exec w p h)).
Proof.
  revert h. induction p as [a | X e k IH]; intro h; simpl.
  - reflexivity.
  - f_equal. apply IH.
Qed.

Lemma exec_history (A : Type) (w : world E) (p : prog E A) (h : list (event E)) :
  snd (exec w p h) = h ++ trace w p h.
Proof.
  revert h. induction p as [a | X e k IH]; intro h; simpl.
  - now rewrite app_nil_r.
  - rewrite IH, <- app_assoc. reflexivity.
Qed.

Lemma ensures_weaken (A : Type) (P Q : A -> Prop) (p : prog E A) :
  (forall a, P a -> Q a) -> ensures P p -> ensures Q p.
Proof.
  intro HPQ. induction p as [a | X e k IH]; simpl.
  - apply HPQ.
  - intros H x. apply IH, H.
Qed.

Lemma ensures_True (A : Type) (p : prog E A) : ensures (fun _ => True) p.
Proof.
  induction p as [a | X e k IH]; simpl; auto.
Qed.

Lemma ensures_bind (A B : Type) (P : A -> Prop) (Q : B -> Prop)
      (p : prog E A) (f : A -> prog E B) :
  ensures P p -> (forall a, P a -> ensures Q (f a)) -> ensures Q (bind p f).
Proof.
  intros Hp Hf. induction p as [a | X e k IH]; simpl in *.
  - now apply Hf.
  - intro x. apply IH, Hp.
Qed.

Lemma ensures_exec (A : Type) (P : A -> Prop) (w : world E) (p : prog E A)
      (h : list (event E)) :
  ensures P p -> P (fst (exec w p h)).
Proof.
  revert h. induction p as [a | X e k IH]; intros h Hp; simpl in *.
  - exact Hp.
  - apply IH, Hp.
Qed.

Lemma within_le (A : Type) (p : prog E A) (n m : nat) :
  n <= m -> within p n -> within p m.
Proof.
  revert n m. induction p as [a | X e k IH]; intros n m Hle Hn; simpl in *.
  - exact I.
  - destruct n as [| n]; [contradiction |].
    destruct m as [| m]; [lia |].
    intro x. apply (IH x n m); [lia | apply Hn].
Qed.

Lemma within_bind (A B : Type) (p : prog E A) (f : A -> prog E B) (n m : nat) :
  within p n -> (forall a, within (f a) m) -> within (bind p f) (n + m).
Proof.
  revert n. induction p as [a | X e k IH]; intros n Hp Hf; simpl in *.
  - apply within_le with (n := m); [lia | apply Hf].
  - destruct n as [| n]; [contradiction |]. simpl.
    intro x. apply IH; [apply Hp | exact Hf].
Qed.

(** ** Pools *)

Lemma nth_error_set_nth_eq (A : Type) (i : nat) (a : A) (l : list A) :
  i < List.length l -> nth_error (set_nth i a l) i = Some a.
Proof.
  revert i. induction l as [| x l IH]; intros [| i] Hi; simpl in *;
    try lia; [reflexivity | apply IH; lia].
Qed.

Lemma nth_error_set_nth_neq (A : Type) (i j : nat) (a : A) (l : list A) :
  i <> j -> nth_error (set_nth i a l) j = nth_error l j.
Proof.
  revert i j. induction l as [| x l IH]; intros [| i] [| j] Hij; simpl;
    try reflexivity; try congruence.
  apply IH. congruence.
Qed.

(** A step keeps every task's promise about its value. *)
Lemma pool_step_ensures (A B : Type) (P : B -> A -> Prop) (w : world E)
      (i : nat) (bs : list B) (pool : list (prog E A)) (h : list (event E)) :
  Forall2 (fun b t => ensures (P b) t) bs pool ->
  Forall2 (fun b t => ensures (P b) t) bs (fst (pool_step w i (pool, h))).
Proof.
  intro HF. unfold pool_step.
  destruct (nth_error pool i) as [[a | X e k] |] eqn:Hi; simpl; auto.
  revert i Hi. induction HF as [| b t bs pool Hbt HF IH]; intros i Hi.
  - destruct i; discriminate.
  - destruct i as [| i]; simpl in *.
    + injection Hi as ->. constructor; [apply Hbt | exact HF].
    + constructor; [exact Hbt | apply IH, Hi].
Qed.

Lemma run_pool_ensures (A B : Type) (P : B -> A -> Prop) (w : world E)
      (sched : list nat) (bs : list B) (pool : list (prog E A))
      (h : list (event E)) :
  Forall2 (fun b t => ensures (P b) t) bs pool ->
  Forall2 (fun b t => ensures (P b) t) bs (fst (run_pool w sched (pool, h))).
Proof.
  revert pool h. induction sched as [| i sched IH]; intros pool h HF;
    cbn [run_pool].
  - exact HF.
  - destruct (pool_step w i (pool, h)) as [pool' h'] eqn:Hstep.
    apply IH. change pool' with (fst (pool', h')). rewrite <- Hstep.
    now apply pool_step_ensures.
Qed.

Lemma collect_ensures (A B : Type) (P : B -> A -> Prop) (bs : list B)
      (pool : list (prog E A)) (out : list A) :
  Forall2 (fun b t => ensures (P b) t) bs pool ->
  collect pool = Some out -> Forall2 P bs out.
Proof.
  intro HF. revert out.
  induction HF as [| b t bs pool Hbt HF IH]; intros out Hc; simpl in *.
  - injection Hc as <-. constructor.
  - destruct t as [a | X e k]; [| discriminate].
    destruct (collect pool) as [l |]; [| discriminate].
    injection Hc as <-. constructor; [exact Hbt | now apply IH].
Qed.

(** A schedule that gives every task as many turns as the task can make
    calls lets the pool finish. *)
Lemma collect_done (A : Type) (pool : list (prog E A)) :
  (forall i t, nth_error pool i = Some t -> within t 0) ->
  exists out, collect pool = Some out.
Proof.
  induction pool as [| t pool IH]; intro H; simpl.
  - now exists [].
  - destruct t as [a | X e k].
    + destruct IH as [l Hl].
      * intros i t Hi. apply (H (S i) t Hi).
      * rewrite Hl. now eexists.
    + destruct (H 0 _ eq_refl).
Qed.

Lemma run_pool_finishes (A : Type) (w : world E) (sched : list nat)
      (pool : list (prog E A)) (h : list (event E)) :
  (forall i t, nth_error pool i = Some t -> within t (turns sched i)) ->
  exists out, collect (fst (run_pool w sched (pool, h))) = Some out.
Proof.
  revert pool h. induction sched as [| j sched IH]; intros pool h H; simpl.
  - now apply collect_done.
  - unfold pool_step.
    destruct (nth_error pool j) as [[a | X e k] |] eqn:Hj.
    + apply IH. intros i t Hi. specialize (H i t Hi).
      unfold turns in *. simpl in H.
      destruct (Nat.eq_dec j i) as [-> | Hne]; [| exact H].
      rewrite Hj in Hi. injection Hi as <-. exact I.
    + apply IH. intros i t Hi.
      destruct (Nat.eq_dec j i) as [<- | Hne].
      * rewrite nth_error_set_nth_eq in Hi
          by (apply nth_error_Some; congruence).
        injection Hi as <-.
        specialize (H j _ Hj). unfold turns in *. simpl in H.
        destruct (Nat.eq_dec j j) as [_ | Hc]; [| congruence].
        apply H.
      * rewrite nth_error_set_nth_neq in Hi by exact Hne.
        specialize (H i t Hi). unfold turns in *. simpl in H.
        destruct (Nat.eq_dec j i) as [Hc | _]; [congruence | exact H].
    + apply IH. intros i t Hi. specialize (H i t Hi).
      unfold turns in *. simpl in H.
      destruct (Nat.eq_dec j i) as [-> | Hne]; [| exact H].
      rewrite Hj in Hi. discriminate.
Qed.

Lemma all_ensures (A B : Type) (P : B -> A -> Prop) (w : world E)
      (sched : list nat) (bs : list B) (tasks : list (prog E A))
      (h : list (event E)) (out : list A) :
  Forall2 (fun b t => ensures (P b) t) bs tasks ->
  fst (all w sched tasks h) = Some out -> Forall2 P bs out.
Proof.
  intros HF Hall. unfold all in Hall.
  pose proof (run_pool_ensures _ _ P w sched bs tasks h HF) as H.
  destruct (run_pool w sched (tasks, h)) as [pool h']. simpl in *.
  now apply collect_ensures with (pool := pool).
Qed.

Lemma all_finishes (A : Type) (w : world E) (sched : list nat)
      (tasks : list (prog E A)) (h : list (event E)) (n : nat) :
  Forall (fun t => within t n) tasks ->
  (forall i, i < List.length tasks -> n <= turns sched i) ->
  exists out, fst (all w sched tasks h) = Some out.
Proof.
  intros HF Hturns. unfold all.
  destruct (run_pool_finishes _ w sched tasks h) as [out Hout].
  - intros i t Hi. apply within_le with (n := n).
    + apply Hturns. apply nth_error_Some. congruence.
    + rewrite Forall_forall in HF. apply HF. eapply nth_error_In, Hi.
  - destruct (run_pool w sched (tasks, h)) as [pool h']. simpl in *.
    now exists out.
Qed.

Lemma serves_turns (sched : list nat) (n k i : nat) :
  serves sched n k = true -> i < n -> k <= turns sched i.
Proof.
  unfold serves. rewrite forallb_forall. intros H Hi.
  apply Nat.leb_le, H, in_seq. lia.
Qed.

Lemma map_eq_Forall2 (A B : Type) (f : A -> B) (l : list A) (bs : list B) :
  map f l = bs -> Forall2 (fun a b => f a = b) l bs.
Proof.
  intros <-. induction l as [| a l IH]; simpl; constructor; auto.
Qed.

Lemma Forall2_map_eq (A B : Type) (f : A -> B) (bs : list B) (l : list A) :
  Forall2 (fun b a => f a = b) bs l -> map f l = bs.
Proof.
  induction 1 as [| b a bs l Hab HF IH]; simpl; [reflexivity |].
  now rewrite Hab, IH.
Qed.

End ProgFacts.


(* ================================================================== *)
(** * Facts about the string functions *)
(* ================================================================== *)

Section StrFacts.

Local Open Scope list_scope.

Lemma cut_None (sep : ascii) (s : string) :
  Str.cut sep s = None <-> Str.contains sep s = false.
Proof.
  induction s as [| c s IH]; simpl.
  - tauto.
  - destruct (Ascii.eqb c sep); simpl.
    + split; discriminate.
    + destruct (Str.cut sep s) as [[a b] |].
      * split; [discriminate |]. intro H. apply IH in H. discriminate.
      * split; [intros _; now apply IH | reflexivity].
Qed.

Lemma cut_Some (sep : ascii) (s a b : string) :
  Str.cut sep s = Some (a, b) ->
  s = (a ++ String sep b)%string /\ Str.contains sep a = false
  /\ Str.contains sep s = true.
Proof.
  revert a. induction s as [| c s IH]; intros a H; simpl in *.
  - discriminate.
  - destruct (Ascii.eqb c sep) eqn:Hc.
    + injection H as <- <-. apply Ascii.eqb_eq in Hc. subst c. now simpl.
    + destruct (Str.cut sep s) as [[a' b'] |]; [| discriminate].
      injection H as <- <-.
      destruct (IH a' eq_refl) as (-> & Ha & Hs).
      simpl. rewrite Hc, Ha. simpl. repeat split. exact Hs.
Qed.

Lemma contains_count (sep : ascii) (s : string) :
  Str.contains sep s = negb (Str.count sep s =? 0)%nat.
Proof.
  induction s as [| c s IH]; simpl; [reflexivity |].
  destruct (Ascii.eqb c sep); simpl; [reflexivity | exact IH].
Qed.

Lemma cut_count (sep : ascii) (s a b : string) :
  Str.cut sep s = Some (a, b) -> Str.count sep s = S (Str.count sep b).
Proof.
  revert a. induction s as [| c s IH]; intros a H; simpl in *.
  - discriminate.
  - destruct (Ascii.eqb c sep).
    + now injection H as <- <-.
    + destruct (Str.cut sep s) as [[a' b'] |]; [| discriminate].
      injection H as <- <-. simpl. now apply (IH a').
Qed.

Lemma cut_length (sep : ascii) (s a b : string) :
  Str.cut sep s = Some (a, b) ->
  String.length s = S (String.length a + String.length b).
Proof.
  revert a. induction s as [| c s IH]; intros a H; simpl in *.
  - discriminate.
  - destruct (Ascii.eqb c sep).
    + now injection H as <- <-.
    + destruct (Str.cut sep s) as [[a' b'] |]; [| discriminate].
      injection H as <- <-. simpl. f_equal. now apply IH.
Qed.

(** [strings.SplitN(s, "/", 2)] has two pieces exactly when [s] holds the
    separator: what is before the first one, and all that is after it. *)
Lemma SplitN_2 (sep : ascii) (s : string) :
  Str.SplitN s sep 2 =
  match Str.cut sep s with
  | Some (a, b) => [a; b]
  | None => [s]
  end.
Proof.
  unfold Str.SplitN. simpl.
  destruct (Str.cut sep s) as [[a b] |]; reflexivity.
Qed.

(** The first piece of [s.split("/")] is always there; the second one is
    there exactly when [s] holds the separator, and stops at the next
    one. *)
Lemma split_owner_name (sep : ascii) (s : string) :
  match Str.cut sep s with
  | None => Str.split s sep = [s]
  | Some (a, b) =>
      nth_error (Str.split s sep) 0 = Some a
      /\ nth_error (Str.split s sep) 1 =
         Some (match Str.cut sep b with
               | Some (b1, _) => b1
               | None => b
               end)
  end.
Proof.
  unfold Str.split.
  destruct (Str.cut sep s) as [[a b] |] eqn:Hcut.
  - pose proof (cut_length _ _ _ _ Hcut) as Hlen.
    destruct (String.length s) as [| n] eqn:Hn; [lia |].
    simpl. rewrite Hcut. simpl. split; [reflexivity |].
    destruct n as [| n]; simpl.
    + assert (String.length b = 0) as Hb by lia.
      destruct b; [reflexivity | discriminate].
    + destruct (Str.cut sep b) as [[b1 b2] |]; reflexivity.
  - destruct (String.length s); simpl; [reflexivity |].
    now rewrite Hcut.
Qed.

Lemma length_append (a b : string) :
  String.length (a ++ b)%string = String.length a + String.length b.
Proof.
  induction a as [| c a IH]; simpl; [reflexivity | now rewrite IH].
Qed.


(** ** Scanning a hexadecimal number *)

Lemma hex_value_range (c : ascii) (d : Z) :
  Fmt.hex_value c = Some d ->
  48 <= nat_of_ascii c <= 102 /\ (0 <= d < 16)%Z.
Proof.
  unfold Fmt.hex_value.
  destruct (Nat.leb_spec 48 (nat_of_ascii c));
    destruct (Nat.leb_spec (nat_of_ascii c) 57);
    destruct (Nat.leb_spec 97 (nat_of_ascii c));
    destruct (Nat.leb_spec (nat_of_ascii c) 102);
    destruct (Nat.leb_spec 65 (nat_of_ascii c));
    destruct (Nat.leb_spec (nat_of_ascii c) 70);
    simpl; intro Hd; try discriminate; injection Hd as <-; lia.
Qed.

Lemma hex_not_space (c : ascii) (d : Z) (s : string) :
  Fmt.hex_value c = Some d -> Str.space_width (String c s) = None.
Proof.
  intro H. apply hex_value_range in H. destruct H as [[Hlo Hhi] _].
  assert (Hne : forall k, 103 <= k -> (nat_of_ascii c =? k)%nat = false).
  { intros k Hk. apply Nat.eqb_neq. lia. }
  unfold Str.space_width, Str.is_ascii_space.
  replace (nat_of_ascii c <=? 13)%nat with false
    by (symmetry; apply Nat.leb_gt; lia).
  replace (nat_of_ascii c =? 32)%nat with false
    by (symmetry; apply Nat.eqb_neq; lia).
  rewrite andb_false_r. simpl.
  destruct s as [| c1 [| c2 s2]]; try reflexivity;
    rewrite ?(Hne 194), ?(Hne 225), ?(Hne 226), ?(Hne 227) by lia;
    reflexivity.
Qed.

Lemma hex_not_special (c : ascii) (d : Z) :
  Fmt.hex_value c = Some d ->
  Ascii.eqb c Fmt.newline = false
  /\ Ascii.eqb c "-"%char = false /\ Ascii.eqb c "+"%char = false.
Proof.
  intro H. repeat split; apply Ascii.eqb_neq; intros ->; discriminate.
Qed.

Lemma scanNumber_all_hex (s : string) :
  Fmt.all_hex s = true -> Fmt.scanNumber s = s.
Proof.
  induction s as [| c s IH]; simpl; [reflexivity |].
  unfold Fmt.accepted. destruct (Fmt.hex_value c); [| discriminate].
  intro H. now rewrite IH.
Qed.

Lemma digits_value_all_hex (s : string) (acc : Z) :
  Fmt.all_hex s = true -> (0 <= acc)%Z ->
  exists v, Fmt.digits_value s acc = Some v
            /\ (0 <= v < (acc + 1) * 16 ^ Z.of_nat (String.length s))%Z.
Proof.
  revert acc. induction s as [| c s IH]; intros acc Hall Hacc.
  - exists acc. simpl. split; [reflexivity | lia].
  - simpl in Hall. cbn [Fmt.digits_value String.length].
    destruct (Fmt.hex_value c) as [d |] eqn:Hc; [| discriminate].
    apply hex_value_range in Hc. destruct Hc as [_ Hd].
    destruct (IH (16 * acc + d)%Z Hall) as (v & Hv & Hbound); [lia |].
    exists v. split; [exact Hv |].
    rewrite Nat2Z.inj_succ, Z.pow_succ_r by lia.
    split; [lia |].
    apply Z.lt_le_trans with (1 := proj2 Hbound).
    apply Z.le_trans
      with (m := ((16 * (acc + 1)) * 16 ^ Z.of_nat (String.length s))%Z).
    + apply Z.mul_le_mono_nonneg_r; [apply Z.pow_nonneg; lia | lia].
    + lia.
Qed.

(** A non-empty string of at most fifteen hexadecimal digits scans to the
    number it writes. *)
Lemma Sscanf_x_hex (s : string) :
  s <> EmptyString -> Fmt.all_hex s = true -> String.length s <= 15 ->
  Fmt.Sscanf_x s = Some (Fmt.hex_number s).
Proof.
  intros Hne Hall Hlen. destruct s as [| c s]; [contradiction |].
  unfold Fmt.Sscanf_x, Fmt.hex_number.
  pose proof Hall as Hc. simpl in Hc.
  destruct (Fmt.hex_value c) as [d |] eqn:Hd; [| discriminate].
  destruct (hex_not_special c d Hd) as (Hnl & Hminus & Hplus).
  assert (Hskip : Fmt.SkipSpace (String.length (String c s)) (String c s)
                  = Some (String c s)).
  { cbn [String.length Fmt.SkipSpace]. rewrite Hnl.
    now rewrite (hex_not_space c d s Hd). }
  rewrite Hskip, Hminus, Hplus. cbn [orb].
  rewrite (scanNumber_all_hex _ Hall).
  destruct (digits_value_all_hex (String c s) 0 Hall) as (v & Hv & Hbound);
    [lia |].
  unfold Fmt.ParseInt16. rewrite Hv. cbn [negb andb].
  replace (Fmt.cutoff <=? v)%Z with false; [reflexivity |].
  symmetry. apply Z.leb_gt. unfold Fmt.cutoff.
  apply Z.lt_le_trans with (1 := proj2 Hbound).
  rewrite Z.mul_1_l. change (2 ^ 63)%Z with (8 * 16 ^ 15)%Z.
  assert (16 ^ Z.of_nat (String.length (String c s)) <= 16 ^ 15)%Z.
  { apply Z.pow_le_mono_r; lia. }
  lia.
Qed.

End StrFacts.


(* ================================================================== *)
(** * Facts about the Go command *)
(* ================================================================== *)

Section GoFacts.

Import Go.
Local Open Scope list_scope.

(** One round of the loop: an element is appended exactly when the title
    holds the separator, and it carries the fields of the repository. *)
Lemma processRepo_spec (c : OllamaClient.t) (repo : TrendingRepo.t) :
  ensures (fun r => if hasSeparator repo
                    then exists item, r = Some item /\ source item = repo
                    else r = None)
          (processRepo c repo).
Proof.
  unfold processRepo, hasSeparator. rewrite SplitN_2.
  destruct (Str.cut Str.slash (TrendingRepo.Title repo)) as [[owner name] |]
    eqn:Hcut.
  - apply cut_Some in Hcut. destruct Hcut as (_ & _ & ->).
    apply ensures_bind with (P := fun _ => True); [apply ensures_True |].
    intros r _.
    apply ensures_bind with (P := fun _ => True); [apply ensures_True |].
    intros s _. simpl. eexists. split; [reflexivity |].
    destruct repo; reflexivity.
  - apply cut_None in Hcut. rewrite Hcut. simpl. reflexivity.
Qed.

Lemma processRepos_spec (c : OllamaClient.t) (repos : list TrendingRepo.t)
      (results : list TrendingRepoWithSummary.t) :
  ensures (fun out => map source out
                      = map source results ++ filter hasSeparator repos)
          (processRepos c repos results).
Proof.
  revert results. induction repos as [| repo repos IH]; intro results; simpl.
  - now rewrite app_nil_r.
  - eapply ensures_bind; [apply processRepo_spec |].
    intros r Hr. simpl in Hr.
    destruct (hasSeparator repo).
    + destruct Hr as (item & -> & Hitem).
      eapply ensures_weaken; [| apply IH].
      intros out ->. rewrite map_app. simpl. rewrite Hitem, <- app_assoc.
      reflexivity.
    + subst r. apply IH.
Qed.

Lemma processRepos_source (w : world E) (c : OllamaClient.t)
      (repos : list TrendingRepo.t) (h : list (event E)) :
  map source (fst (exec w (processRepos c repos []) h))
  = filter hasSeparator repos.
Proof.
  apply (ensures_exec _ _ _ w _ h (processRepos_spec c repos [])).
Qed.


Lemma exec_fetchReadme_go (w : world E) (owner name : string)
      (h : list (event E)) :
  exec w (fetchReadme owner name) h =
  (match w _ h (GetReadme owner name) with
   | Err e => Err (wrap "get readme" e)
   | Ok readme =>
       match RepositoryContent.GetContent readme with
       | Err e => Err (wrap "get content" e)
       | Ok content => Ok content
       end
   end,
   h ++ [ev (GetReadme owner name)]).
Proof.
  unfold fetchReadme. simpl.
  destruct (w _ h (GetReadme owner name)) as [readme | e]; simpl;
    [| reflexivity].
  destruct (RepositoryContent.GetContent readme); reflexivity.
Qed.

(** A round of the loop on a title with the separator: the README is
    fetched, then [Summarize] runs on the text or, when the fetch failed, on
    the description. *)
Lemma exec_processRepo (w : world E) (c : OllamaClient.t)
      (repo : TrendingRepo.t) (owner name : string) (h : list (event E)) :
  Str.SplitN (TrendingRepo.Title repo) Str.slash 2 = [owner; name] ->
  let r := exec w (fetchReadme owner name) h in
  let readme := match fst r with
                | Err _ => TrendingRepo.Description repo
                | Ok readme => readme
                end in
  let s := exec w (Summarize c readme) (snd r) in
  exec w (processRepo c repo) h
  = (Some (withSummary repo (summaryOr (fst s))), snd s).
Proof.
  intros Hsplit r readme s. unfold processRepo. rewrite Hsplit.
  rewrite exec_bind. cbv zeta. rewrite exec_bind. reflexivity.
Qed.


(** The summary [run] keeps is empty in one case only: the backend was
    reached, answered 200 with a reply that is not empty, and trimming the
    reply left nothing. *)
Lemma Summarize_empty_summary (w : world E) (c : OllamaClient.t)
      (readme : string) (h : list (event E)) :
  let url := (OllamaClient.BaseURL c ++ "/api/generate")%string in
  let text := if (maxReadmeLen <? String.length readme)%nat
              then Str.take maxReadmeLen readme else readme in
  let body := OllamaRequest.mk (OllamaClient.Model c)
                (promptHead ++ text)%string false in
  summaryOr (fst (exec w (Summarize c readme) h)) = EmptyString ->
  exists resp reply,
    w _ (h ++ [ev (NewRequest "POST" url)]) (DoOllama url body) = Ok resp
    /\ Response.StatusCode resp = StatusOK
    /\ Response.Decode resp = Ok (OllamaResponse.mk reply)
    /\ reply <> EmptyString
    /\ Str.TrimSpace reply = EmptyString.
Proof.
  intros url text body. unfold Summarize.
  destruct (readme =? EmptyString)%string; [discriminate |].
  fold text. fold url. fold body. cbn [bind call exec].
  destruct (w _ h (NewRequest "POST" url)) as [[] | e]; cbn [bind exec];
    [| discriminate].
  destruct (w _ (h ++ [ev (NewRequest "POST" url)]) (DoOllama url body))
    as [resp | e]; cbn [exec]; [| discriminate].
  destruct (Response.StatusCode resp =? StatusOK)%Z eqn:Hstatus;
    cbn [negb exec]; [| discriminate].
  destruct (Response.Decode resp) as [[reply] | e] eqn:Hdecode; cbn [exec];
    [| discriminate].
  cbn [OllamaResponse.Response].
  destruct (reply =? EmptyString)%string eqn:Hreply; cbn [exec fst summaryOr];
    [discriminate |].
  intro Htrim. exists resp, reply. repeat split.
  - now apply Z.eqb_eq.
  - exact Hdecode.
  - intros ->. discriminate.
  - exact Htrim.
Qed.

(** A color written [#] and one to fifteen hexadecimal digits, [#RRGGBB]
    among them, becomes the number the digits write. *)
Lemma languageToColor_hex (digits : string) :
  digits <> EmptyString -> Fmt.all_hex digits = true ->
  String.length digits <= 15 ->
  languageToColor (String "#" digits) = Fmt.hex_number digits.
Proof.
  intros Hne Hall Hlen. unfold languageToColor.
  cbn [String.eqb]. unfold Str.TrimPrefix. cbn [String.prefix Ascii.eqb].
  simpl Str.drop. destruct digits as [| c s]; [contradiction |].
  cbn [String.prefix]. cbn -[Fmt.Sscanf_x Fmt.hex_number].
  now rewrite Sscanf_x_hex.
Qed.

End GoFacts.



(* ================================================================== *)
(** * Facts about the TypeScript worker *)
(* ================================================================== *)

Section TSFacts.

Import TS.
Local Open Scope list_scope.

(** Whatever the answers, the object built for a repository carries its
    fields, and its summary is not the empty string. *)
Lemma summarizeReadme_nonempty (readme apiKey : string) :
  ensures (fun s => s <> EmptyString) (summarizeReadme readme apiKey).
Proof.
  unfold summarizeReadme. simpl. intros [[text |] | e]; simpl;
    try discriminate.
  destruct (text =? EmptyString)%string eqn:Htext; simpl.
  - discriminate.
  - intros ->. discriminate.
Qed.

Lemma enrichRepo_spec (apiKey : string) (repo : TrendingRepo.t) :
  ensures (fun item => source item = repo
                       /\ TrendingRepoWithSummary.summary item <> EmptyString)
          (enrichRepo apiKey repo).
Proof.
  unfold enrichRepo.
  apply ensures_bind with (P := fun _ => True); [apply ensures_True |].
  intros readme _.
  apply ensures_bind with (P := fun s => s <> EmptyString).
  - destruct readme as [text |]; [| simpl; discriminate].
    destruct (truthy text); [apply summarizeReadme_nonempty |].
    simpl. discriminate.
  - intros summary Hs. simpl. split; [destruct repo; reflexivity | exact Hs].
Qed.

Lemma fetchReadme_within (owner name : option string) :
  within (fetchReadme owner name) 2.
Proof.
  unfold fetchReadme, branches. simpl.
  intros [res | e]; [| intros [res' | e']].
  - destruct (Response.ok res); [destruct (Response.text res) |]; simpl; auto;
      intros [res' | e']; simpl; auto;
      destruct (Response.ok res'); [destruct (Response.text res') | |
                                    destruct (Response.text res') |];
      simpl; auto.
  - destruct (Response.ok res'); [destruct (Response.text res') |]; simpl; auto.
  - simpl. auto.
Qed.

Lemma enrichRepo_within (apiKey : string) (repo : TrendingRepo.t) :
  within (enrichRepo apiKey repo) 3.
Proof.
  unfold enrichRepo.
  apply (within_bind _ _ _ _ _ 2 1); [apply fetchReadme_within |].
  intros readme.
  apply (within_bind _ _ _ _ _ 1 0).
  - destruct readme as [text |]; [| exact I].
    destruct (truthy text); [| exact I].
    unfold summarizeReadme. simpl. intros [[text' |] | e]; simpl; auto.
    destruct (text' =? EmptyString)%string; exact I.
  - intros summary. exact I.
Qed.

Lemma exec_fetchReadme (w : world E) (owner name : option string)
      (h : list (event E)) :
  let u1 := readmeURL owner name "main" in
  let u2 := readmeURL owner name "master" in
  exec w (fetchReadme owner name) h =
  match body (w _ h (fetch u1)) with
  | Some text => (Some text, h ++ [ev (fetch u1)])
  | None => (body (w _ (h ++ [ev (fetch u1)]) (fetch u2)),
             h ++ [ev (fetch u1); ev (fetch u2)])
  end.
Proof.
  intros u1 u2. unfold fetchReadme, branches. simpl. fold u1 u2.
  assert (Hrest : exec w (fetchReadmeFrom owner name ["master"])
                       (h ++ [ev (fetch u1)])
                  = (body (w _ (h ++ [ev (fetch u1)]) (fetch u2)),
                     h ++ [ev (fetch u1); ev (fetch u2)])).
  { simpl. fold u2. rewrite <- app_assoc. simpl.
    destruct (w _ (h ++ [ev (fetch u1)]) (fetch u2)) as [res | e]; simpl;
      [| reflexivity].
    destruct (Response.ok res); [| reflexivity].
    destruct (Response.text res); reflexivity. }
  simpl in Hrest. fold u2 in Hrest.
  destruct (w _ h (fetch u1)) as [res | e]; simpl; [| exact Hrest].
  destruct (Response.ok res); [| exact Hrest].
  destruct (Response.text res); [reflexivity | exact Hrest].
Qed.

Lemma generated_fetchReadmeFrom (w : world E) (owner name : option string)
      (todo : list string) (h : list (event E)) :
  generated (trace w (fetchReadmeFrom owner name todo) h) = [].
Proof.
  revert h. induction todo as [| branch todo IH]; intro h; simpl.
  - reflexivity.
  - destruct (w _ h (fetch (readmeURL owner name branch))) as [res | e];
      simpl; [| apply IH].
    destruct (Response.ok res); [| apply IH].
    destruct (Response.text res); [reflexivity | apply IH].
Qed.

Lemma generated_fetchReadme (w : world E) (owner name : option string)
      (h : list (event E)) :
  generated (trace w (fetchReadme owner name) h) = [].
Proof.
  apply generated_fetchReadmeFrom.
Qed.

Lemma generated_app (h1 h2 : list (event E)) :
  generated (h1 ++ h2) = generated h1 ++ generated h2.
Proof.
  apply flat_map_app.
Qed.

Lemma trace_summarizeReadme (w : world E) (readme apiKey : string)
      (h : list (event E)) :
  trace w (summarizeReadme readme apiKey) h
  = [ev (generateContent model (promptHead ++ readme))].
Proof.
  unfold summarizeReadme. cbn [bind call trace]. f_equal.
  destruct (w _ h (generateContent model (promptHead ++ readme)))
    as [[text |] | e]; cbn [trace]; try reflexivity.
  destruct (text =? EmptyString)%string; reflexivity.
Qed.

(** When the fetched text is [null] or empty the callback asks nothing of
    the generation backend and sets the fixed summary. *)
Lemma enrichRepo_without_text (w : world E) (apiKey : string)
      (repo : TrendingRepo.t) (h : list (event E)) :
  let owner := fst (ownerAndName (TrendingRepo.title repo)) in
  let name := snd (ownerAndName (TrendingRepo.title repo)) in
  (fst (exec w (fetchReadme owner name) h) = None
   \/ fst (exec w (fetchReadme owner name) h) = Some EmptyString) ->
  fst (exec w (enrichRepo apiKey repo) h) = withSummary repo summaryFailed
  /\ generated (trace w (enrichRepo apiKey repo) h) = [].
Proof.
  intros owner name Hnone. unfold enrichRepo. fold owner name.
  rewrite exec_bind, trace_bind, generated_app, generated_fetchReadme.
  destruct Hnone as [-> | ->]; simpl; auto.
Qed.

End TSFacts.


(* ================================================================== *)
(** * The pipelines as wholes *)
(* ================================================================== *)

Section Pipelines.

Local Open Scope list_scope.

(** ** The two pipelines on the same small feed

    The feed holds [a/b], described as [foo], and [bad], described as [x];
    no README can be had; the generation backend answers ["要約"]. *)

Example go_on_small_feed :
  let feed := [Examples.goRepo "a/b" "foo"; Examples.goRepo "bad" "x"] in
  let w := Examples.goWorld feed Examples.goNoReadme "要約" in
  map (fun item => (Go.TrendingRepoWithSummary.Title item,
                    Go.TrendingRepoWithSummary.Summary item))
      (fst (exec w (Go.processRepos Examples.goClient feed []) []))
  = [("a/b", "要約")]
  /\ Go.prompts (snd (exec w (Go.processRepos Examples.goClient feed []) []))
     = [(Go.promptHead ++ "foo")%string]
  /\ fst (exec w Go.run []) = Go.Ok tt.
Proof.
  vm_compute. repeat split; reflexivity.
Qed.

Example ts_on_small_feed :
  let feed := [Examples.tsRepo "a/b" "foo"; Examples.tsRepo "bad" "x"] in
  let w := Examples.tsWorld feed Examples.tsNoReadme
             (TS.Returned (Some "要約")) in
  let ran := TS.getTrendingReposWithSummary "key" w Examples.interleaved [] in
  match fst ran with
  | TS.Done (TS.Returned out) =>
      map (fun item => (TS.TrendingRepoWithSummary.title item,
                        TS.TrendingRepoWithSummary.summary item)) out
      = [("a/b", "要約失敗"); ("bad", "要約失敗")]
  | _ => False
  end
  /\ TS.generated (snd ran) = []
  /\ fst (TS.scheduled "key" w Examples.interleaved []) = TS.Done (TS.Returned tt).
Proof.
  vm_compute. repeat split; reflexivity.
Qed.

Example split_examples :
  Str.SplitN "a/b/c" Str.slash 2 = ["a"; "b/c"]
  /\ Str.SplitN "bad" Str.slash 2 = ["bad"]
  /\ Str.SplitN "a/" Str.slash 2 = ["a"; EmptyString]
  /\ Str.split "a/b/c" Str.slash = ["a"; "b"; "c"]
  /\ Str.split "bad" Str.slash = ["bad"]
  /\ TS.readmeURL (fst (TS.ownerAndName "bad")) (snd (TS.ownerAndName "bad"))
                  "main"
     = "https://raw.githubusercontent.com/bad/undefined/main/README.md".
Proof.
  vm_compute. repeat split; reflexivity.
Qed.

Example TrimSpace_examples :
  Str.TrimSpace "  a b  " = "a b"
  /\ Str.TrimSpace (" 要約" ++ Go.nl) = "要約"
  /\ Str.TrimSpace ("　" ++ Go.nl ++ " ") = EmptyString.
Proof.
  vm_compute. repeat split; reflexivity.
Qed.

Example Sscanf_x_examples :
  Fmt.Sscanf_x "00ADD8" = Some 0x00ADD8%Z
  /\ Fmt.Sscanf_x "  -ff" = Some (-255)%Z
  /\ Fmt.Sscanf_x "12zz" = Some 0x12%Z
  /\ Fmt.Sscanf_x "red" = None
  /\ Fmt.Sscanf_x "ff_ff" = None
  /\ Fmt.Sscanf_x "8000000000000000" = None
  /\ Fmt.Sscanf_x EmptyString = None.
Proof.
  vm_compute. repeat split; reflexivity.
Qed.


Lemma all_enrichRepo (apiKey : string) (w : world TS.E) (sched : list nat)
      (repos : list TS.TrendingRepo.t) (h : list (event TS.E))
      (out : list TS.TrendingRepoWithSummary.t) :
  fst (all w sched (map (TS.enrichRepo apiKey) repos) h) = Some out ->
  Forall2 (fun repo item =>
             TS.source item = repo
             /\ TS.TrendingRepoWithSummary.summary item <> EmptyString)
          repos out.
Proof.
  apply all_ensures.
  induction repos as [| repo repos IH]; simpl; constructor.
  - apply enrichRepo_spec.
  - exact IH.
Qed.

Lemma all_enrichRepo_source (apiKey : string) (w : world TS.E)
      (sched : list nat) (repos : list TS.TrendingRepo.t)
      (h : list (event TS.E)) (out : list TS.TrendingRepoWithSummary.t) :
  fst (all w sched (map (TS.enrichRepo apiKey) repos) h) = Some out ->
  map TS.source out = repos.
Proof.
  intro H. apply Forall2_map_eq.
  eapply Forall2_impl; [| apply (all_enrichRepo _ _ _ _ _ _ H)].
  simpl. intros repo item [Hs _]. exact Hs.
Qed.

Lemma all_enrichRepo_finishes (apiKey : string) (w : world TS.E)
      (sched : list nat) (repos : list TS.TrendingRepo.t)
      (h : list (event TS.E)) :
  (forall i, i < List.length repos -> 3 <= turns sched i) ->
  exists out, fst (all w sched (map (TS.enrichRepo apiKey) repos) h) = Some out.
Proof.
  intro Hturns. apply all_finishes with (n := 3).
  - apply Forall_forall. intros t Ht. apply in_map_iff in Ht.
    destruct Ht as (repo & <- & _). apply enrichRepo_within.
  - now rewrite length_map.
Qed.

(** When the trending list could be fetched and the schedule lets every
    task finish, [getTrendingReposWithSummary] returns one object per
    repository, in turn. *)
Lemma getTrendingReposWithSummary_returns (apiKey : string) (w : world TS.E)
      (sched : list nat) (h : list (event TS.E))
      (repos : list TS.TrendingRepo.t) :
  fst (exec w TS.fetchTrending h) = TS.Returned repos ->
  serves sched (List.length repos) 3 = true ->
  exists out,
    fst (TS.getTrendingReposWithSummary apiKey w sched h)
    = TS.Done (TS.Returned out)
    /\ map TS.source out = repos
    /\ Forall (fun item =>
                 TS.TrendingRepoWithSummary.summary item <> EmptyString) out.
Proof.
  intros Hfetch Hserved. unfold TS.getTrendingReposWithSummary.
  destruct (exec w TS.fetchTrending h) as [fetched h1]. simpl in Hfetch.
  subst fetched.
  destruct (all_enrichRepo_finishes apiKey w sched repos h1) as [out Hout].
  { intros i Hi. now apply serves_turns with (n := List.length repos). }
  exists out.
  pose proof (all_enrichRepo _ _ _ _ _ _ Hout) as Hall.
  pose proof (all_enrichRepo_source _ _ _ _ _ _ Hout) as Hsrc.
  destruct (all w sched (map (TS.enrichRepo apiKey) repos) h1) as [settled h2].
  simpl in Hout. subst settled. simpl. split; [reflexivity |].
  split; [exact Hsrc |].
  clear Hsrc Hserved. induction Hall as [| repo item repos' out' [_ Hs] _ IH].
  - constructor.
  - constructor; [exact Hs | exact IH].
Qed.





(** C4. In the Go command the i-th element of the output is the i-th input
    item with a separator in its title.  In the TypeScript worker, under any
    two schedules that give each task three turns, that is whatever the
    order in which the tasks make progress and complete,
    [getTrendingReposWithSummary] returns, and the i-th element of either
    output is the i-th input item. *)
Theorem C4_output_in_input_order
        (gw : world Go.E) (c : Go.OllamaClient.t)
        (grepos : list Go.TrendingRepo.t) (gh : list (event Go.E))
        (apiKey : string) (tw : world TS.E) (sched sched' : list nat)
        (trepos : list TS.TrendingRepo.t) (th : list (event TS.E)) :
  fst (exec tw TS.fetchTrending th) = TS.Returned trepos ->
  serves sched (List.length trepos) 3 = true ->
  serves sched' (List.length trepos) 3 = true ->
  (forall i,
      nth_error (map Go.source
                   (fst (exec gw (Go.processRepos c grepos []) gh))) i
      = nth_error (filter Go.hasSeparator grepos) i)
  /\ (exists out out',
         fst (TS.getTrendingReposWithSummary apiKey tw sched th)
         = TS.Done (TS.Returned out)
         /\ fst (TS.getTrendingReposWithSummary apiKey tw sched' th)
            = TS.Done (TS.Returned out')
         /\ forall i,
             nth_error (map TS.source out) i = nth_error trepos i
             /\ nth_error (map TS.source out') i = nth_error trepos i).
Proof.
  intros Hfetch Hs Hs'. split.
  - intro i. now rewrite processRepos_source.
  - destruct (getTrendingReposWithSummary_returns apiKey tw sched th trepos
                Hfetch Hs) as (out & Hout & Hsrc & _).
    destruct (getTrendingReposWithSummary_returns apiKey tw sched' th trepos
                Hfetch Hs') as (out' & Hout' & Hsrc' & _).
    exists out, out'. split; [exact Hout | split; [exact Hout' |]].
    intro i. rewrite Hsrc, Hsrc'. split; reflexivity.
Qed.

Lemma C4_witness :
  let gfeed := [Examples.goRepo "a/b" "foo"; Examples.goRepo "bad" "x";
                Examples.goRepo "c/d" "bar"] in
  let tfeed := [Examples.tsRepo "a/b" "foo"; Examples.tsRepo "c/d" "bar"] in
  let gw := Examples.goWorld gfeed Examples.goNoReadme "要約" in
  let tw := Examples.tsWorld tfeed (Examples.tsReadme "text")
              (TS.Returned (Some "要約")) in
  (forall i,
      nth_error (map Go.source
                   (fst (exec gw (Go.processRepos Examples.goClient gfeed []) [])))
                i
      = nth_error (filter Go.hasSeparator gfeed) i)
  /\ (exists out out',
         fst (TS.getTrendingReposWithSummary "key" tw (Examples.inTurn 2) [])
         = TS.Done (TS.Returned out)
         /\ fst (TS.getTrendingReposWithSummary "key" tw Examples.interleaved [])
            = TS.Done (TS.Returned out')
         /\ forall i,
             nth_error (map TS.source out) i = nth_error tfeed i
             /\ nth_error (map TS.source out') i = nth_error tfeed i).
Proof.
  intros gfeed tfeed gw tw.
  apply (C4_output_in_input_order gw Examples.goClient gfeed []
           "key" tw (Examples.inTurn 2) Examples.interleaved tfeed []);
    vm_compute; reflexivity.
Defined.

Lemma source_sameFields_go (item : Go.TrendingRepoWithSummary.t)
      (repo : Go.TrendingRepo.t) :
  Go.source item = repo -> Go.sameFields item repo.
Proof.
  intros <-. unfold Go.sameFields, Go.source. simpl. tauto.
Qed.

Lemma source_sameFields_ts (item : TS.TrendingRepoWithSummary.t)
      (repo : TS.TrendingRepo.t) :
  TS.source item = repo -> TS.sameFields item repo.
Proof.
  intros <-. unfold TS.sameFields, TS.source. simpl. tauto.
Qed.

(** C8. In both pipelines the output is no longer than the input, and every
    output item has the title, URL, description, language, language color,
    stars, forks, added stars and contributors of the input item it comes
    from: in the Go command the items with a separator in their title, in
    turn; in the TypeScript worker all items, in turn. *)
Theorem C8_fields_unchanged
        (gw : world Go.E) (c : Go.OllamaClient.t)
        (grepos : list Go.TrendingRepo.t) (gh : list (event Go.E))
        (apiKey : string) (tw : world TS.E) (sched : list nat)
        (trepos : list TS.TrendingRepo.t) (th : list (event TS.E)) :
  fst (exec tw TS.fetchTrending th) = TS.Returned trepos ->
  serves sched (List.length trepos) 3 = true ->
  (List.length (fst (exec gw (Go.processRepos c grepos []) gh))
   <= List.length grepos
   /\ Forall2 Go.sameFields
              (fst (exec gw (Go.processRepos c grepos []) gh))
              (filter Go.hasSeparator grepos))
  /\ (exists out,
         fst (TS.getTrendingReposWithSummary apiKey tw sched th)
         = TS.Done (TS.Returned out)
         /\ List.length out <= List.length trepos
         /\ Forall2 TS.sameFields out trepos).
Proof.
  intros Hfetch Hs. split.
  - pose proof (processRepos_source gw c grepos gh) as Hsrc. split.
    + rewrite <- (length_map Go.source), Hsrc. apply filter_length_le.
    + apply map_eq_Forall2 in Hsrc.
      eapply Forall2_impl; [| exact Hsrc].
      intros item repo. apply source_sameFields_go.
  - destruct (getTrendingReposWithSummary_returns apiKey tw sched th trepos
                Hfetch Hs) as (out & Hout & Hsrc & _).
    exists out. split; [exact Hout |]. split.
    + rewrite <- (length_map TS.source), Hsrc. apply Nat.le_refl.
    + apply map_eq_Forall2 in Hsrc.
      eapply Forall2_impl; [| exact Hsrc].
      intros item repo. apply source_sameFields_ts.
Qed.

Lemma C8_witness :
  let gfeed := [Examples.goRepo "a/b" "foo"; Examples.goRepo "bad" "x"] in
  let tfeed := [Examples.tsRepo "a/b" "foo"; Examples.tsRepo "bad" "x"] in
  let gw := Examples.goWorld gfeed (Examples.goReadme "text") "要約" in
  let tw := Examples.tsWorld tfeed (Examples.tsReadme "text")
              (TS.Returned (Some "要約")) in
  (List.length (fst (exec gw (Go.processRepos Examples.goClient gfeed []) []))
   <= List.length gfeed
   /\ Forall2 Go.sameFields
              (fst (exec gw (Go.processRepos Examples.goClient gfeed []) []))
              (filter Go.hasSeparator gfeed))
  /\ (exists out,
         fst (TS.getTrendingReposWithSummary "key" tw Examples.interleaved [])
         = TS.Done (TS.Returned out)
         /\ List.length out <= List.length tfeed
         /\ Forall2 TS.sameFields out tfeed).
Proof.
  intros gfeed tfeed gw tw.
  apply (C8_fields_unchanged gw Examples.goClient gfeed []
           "key" tw Examples.interleaved tfeed []);
    vm_compute; reflexivity.
Defined.

(** C2. Amended: in the Go command, when an item is kept and fetching its
    README returns an error, [Summarize] is run on the description of the
    item, and the item is appended with the summary so obtained.  In the
    TypeScript worker, when [fetchReadme] gives [null], [summarizeReadme] is
    not called at all: no request goes to the generation backend and the
    item is returned with the fixed summary ["要約失敗"]. *)
Theorem C2_description_fallback_in_go_only
        (gw : world Go.E) (c : Go.OllamaClient.t) (grepo : Go.TrendingRepo.t)
        (owner name : string) (gh : list (event Go.E)) (e : Go.error)
        (apiKey : string) (tw : world TS.E) (trepo : TS.TrendingRepo.t)
        (th : list (event TS.E)) :
  Str.SplitN (Go.TrendingRepo.Title grepo) Str.slash 2 = [owner; name] ->
  fst (exec gw (Go.fetchReadme owner name) gh) = Go.Err e ->
  fst (exec tw (TS.fetchReadme
                  (fst (TS.ownerAndName (TS.TrendingRepo.title trepo)))
                  (snd (TS.ownerAndName (TS.TrendingRepo.title trepo)))) th)
  = None ->
  let summarized :=
    exec gw (Go.Summarize c (Go.TrendingRepo.Description grepo))
         (gh ++ [ev (Go.GetReadme owner name)]) in
  exec gw (Go.processRepo c grepo) gh
  = (Some (Go.withSummary grepo (Go.summaryOr (fst summarized))),
     snd summarized)
  /\ fst (exec tw (TS.enrichRepo apiKey trepo) th)
     = TS.withSummary trepo TS.summaryFailed
  /\ TS.generated (trace tw (TS.enrichRepo apiKey trepo) th) = [].
Proof.
  intros Hsplit Hgo Hts summarized. split.
  - rewrite (exec_processRepo gw c grepo owner name gh Hsplit).
    rewrite Hgo. unfold summarized.
    rewrite exec_fetchReadme_go. reflexivity.
  - apply enrichRepo_without_text. now left.
Qed.

(** C2, as stated, fails on the TypeScript worker: with no README to be
    had, the item [a/b] described as [foo] is returned with ["要約失敗"],
    and the backend, which would have answered, was never asked. *)
Lemma C2_ts_does_not_summarize_description :
  let repo := Examples.tsRepo "a/b" "foo" in
  let w := Examples.tsWorld [repo] Examples.tsNoReadme
             (TS.Returned (Some "要約")) in
  let run := TS.getTrendingReposWithSummary "key" w (Examples.inTurn 1) [] in
  fst run = TS.Done (TS.Returned [TS.withSummary repo "要約失敗"])
  /\ TS.generated (snd run) = [].
Proof.
  vm_compute. split; reflexivity.
Qed.

Lemma C2_witness :
  let grepo := Examples.goRepo "a/b" "foo" in
  let trepo := Examples.tsRepo "a/b" "foo" in
  let gw := Examples.goWorld [grepo] Examples.goNoReadme "要約" in
  let tw := Examples.tsWorld [trepo] Examples.tsNoReadme
              (TS.Returned (Some "要約")) in
  let summarized :=
    exec gw (Go.Summarize Examples.goClient "foo") [ev (Go.GetReadme "a" "b")] in
  exec gw (Go.processRepo Examples.goClient grepo) []
  = (Some (Go.withSummary grepo (Go.summaryOr (fst summarized))),
     snd summarized)
  /\ fst (exec tw (TS.enrichRepo "key" trepo) [])
     = TS.withSummary trepo TS.summaryFailed
  /\ TS.generated (trace tw (TS.enrichRepo "key" trepo) []) = [].
Proof.
  intros grepo trepo gw tw.
  apply (C2_description_fallback_in_go_only gw Examples.goClient grepo
           "a" "b" [] "get readme: 404" "key" tw trepo []);
    vm_compute; reflexivity.
Defined.

(** C5. Amended: in the Go command [Summarize] on the empty text returns
    ["説明なし"] and makes no call.  The TypeScript [summarizeReadme] has no
    such case: on the empty text it sends the bare instruction to the
    backend; the worker does not call it when the fetched text is empty, and
    then makes no call to the backend and sets ["要約失敗"]. *)
Theorem C5_empty_text
        (gw : world Go.E) (c : Go.OllamaClient.t) (gh : list (event Go.E))
        (apiKey : string) (tw : world TS.E) (trepo : TS.TrendingRepo.t)
        (th : list (event TS.E)) :
  fst (exec tw (TS.fetchReadme
                  (fst (TS.ownerAndName (TS.TrendingRepo.title trepo)))
                  (snd (TS.ownerAndName (TS.TrendingRepo.title trepo)))) th)
  = Some EmptyString ->
  (exec gw (Go.Summarize c EmptyString) gh = (Go.Ok "説明なし", gh)
   /\ trace gw (Go.Summarize c EmptyString) gh = [])
  /\ trace tw (TS.summarizeReadme EmptyString apiKey) th
     = [ev (TS.generateContent "gemini-2.0-flash" TS.promptHead)]
  /\ fst (exec tw (TS.enrichRepo apiKey trepo) th)
     = TS.withSummary trepo "要約失敗"
  /\ TS.generated (trace tw (TS.enrichRepo apiKey trepo) th) = [].
Proof.
  intro Hempty. split; [split; reflexivity | split].
  - rewrite trace_summarizeReadme. reflexivity.
  - apply enrichRepo_without_text. now right.
Qed.

(** C5, as stated, fails on the TypeScript worker: [summarizeReadme] on the
    empty text calls the backend and returns its answer, and a repository
    whose README is empty is given ["要約失敗"], not ["説明なし"]. *)
Lemma C5_ts_has_no_empty_text_placeholder :
  let repo := Examples.tsRepo "a/b" EmptyString in
  let w := Examples.tsWorld [repo] (Examples.tsReadme EmptyString)
             (TS.Returned (Some "要約")) in
  exec w (TS.summarizeReadme EmptyString "key") []
  = ("要約", [ev (TS.generateContent "gemini-2.0-flash" TS.promptHead)])
  /\ fst (TS.getTrendingReposWithSummary "key" w (Examples.inTurn 1) [])
     = TS.Done (TS.Returned [TS.withSummary repo "要約失敗"]).
Proof.
  vm_compute. split; reflexivity.
Qed.

Lemma C5_witness :
  let trepo := Examples.tsRepo "a/b" EmptyString in
  let gw := Examples.goWorld [] Examples.goNoReadme "要約" in
  let tw := Examples.tsWorld [trepo] (Examples.tsReadme EmptyString)
              (TS.Returned (Some "要約")) in
  (exec gw (Go.Summarize Examples.goClient EmptyString) []
   = (Go.Ok "説明なし", [])
   /\ trace gw (Go.Summarize Examples.goClient EmptyString) [] = [])
  /\ trace tw (TS.summarizeReadme EmptyString "key") []
     = [ev (TS.generateContent "gemini-2.0-flash" TS.promptHead)]
  /\ fst (exec tw (TS.enrichRepo "key" trepo) [])
     = TS.withSummary trepo "要約失敗"
  /\ TS.generated (trace tw (TS.enrichRepo "key" trepo) []) = [].
Proof.
  intros trepo gw tw.
  apply (C5_empty_text gw Examples.goClient [] "key" tw trepo []).
  vm_compute. reflexivity.
Defined.




(** C7. Amended: the TypeScript [fetchReadme] asks for the README on branch
    [main] first; when that request is answered, is [ok] and its body can
    be read, it returns the body and asks nothing more; in every other
    case, a request that throws included, it goes on to branch [master]
    and returns the body obtained there or [null].  The Go [fetchReadme]
    has no list of candidates: it makes the one [GetReadme] call and
    returns the decoded text or an error. *)
Theorem C7_candidates_in_ts_one_call_in_go
        (tw : world TS.E) (owner name : option string) (th : list (event TS.E))
        (gw : world Go.E) (gowner gname : string) (gh : list (event Go.E)) :
  let u1 := TS.readmeURL owner name "main" in
  let u2 := TS.readmeURL owner name "master" in
  exec tw (TS.fetchReadme owner name) th
  = match TS.body (tw _ th (TS.fetch u1)) with
    | Some text => (Some text, th ++ [ev (TS.fetch u1)])
    | None => (TS.body (tw _ (th ++ [ev (TS.fetch u1)]) (TS.fetch u2)),
               th ++ [ev (TS.fetch u1); ev (TS.fetch u2)])
    end
  /\ exec gw (Go.fetchReadme gowner gname) gh
     = (match gw _ gh (Go.GetReadme gowner gname) with
        | Go.Err e => Go.Err (Go.wrap "get readme" e)
        | Go.Ok readme =>
            match Go.RepositoryContent.GetContent readme with
            | Go.Err e => Go.Err (Go.wrap "get content" e)
            | Go.Ok content => Go.Ok content
            end
        end,
        gh ++ [ev (Go.GetReadme gowner gname)]).
Proof.
  intros u1 u2. split.
  - apply exec_fetchReadme.
  - apply exec_fetchReadme_go.
Qed.

(** C7, as stated, fails on the Go command: when the one call fails,
    [fetchReadme] returns an error, and no other location was tried. *)
Lemma C7_go_returns_error_after_one_call :
  let w := Examples.goWorld [] Examples.goNoReadme "要約" in
  exec w (Go.fetchReadme "a" "b") []
  = (Go.Err "get readme: 404", [ev (Go.GetReadme "a" "b")]).
Proof.
  vm_compute. reflexivity.
Qed.

(** C3. The Go command can produce an empty summary: the reply of the
    backend is compared with the empty string before it is trimmed, so a
    reply made of white space only, here one space, becomes the summary
    [""] of the item. *)
Theorem C3_go_blank_reply_gives_empty_summary :
  let repo := Examples.goRepo "a/b" "foo" in
  let w := Examples.goWorld [repo] (Examples.goReadme "text") " " in
  fst (exec w (Go.Summarize Examples.goClient "text") []) = Go.Ok EmptyString
  /\ map Go.TrendingRepoWithSummary.Summary
         (fst (exec w (Go.processRepos Examples.goClient [repo] []) []))
     = [EmptyString].
Proof.
  vm_compute. split; reflexivity.
Qed.

Lemma buildLoop_spec (fuel : nat) (rest : list Go.TrendingRepoWithSummary.t)
      (messages : list Go.DiscordWebhookPayload.t) :
  List.length rest <= fuel ->
  Go.buildLoop fuel rest messages
  = messages
    ++ map (fun repo => Go.DiscordWebhookPayload.mk EmptyString
                          [Go.buildEmbed repo]) rest.
Proof.
  revert rest messages.
  induction fuel as [| fuel IH]; intros [| repo rest] messages Hlen;
    simpl in *; try (now rewrite app_nil_r); try lia.
  rewrite IH by lia. rewrite <- app_assoc. reflexivity.
Qed.

(** C9. Every message carries one embed, whose color is [languageToColor]
    of the language color of its item.  That is the fallback 0x7289DA for
    an empty color and the number written for a hexadecimal one, but for a
    color that cannot be scanned, such as [red], it is 0 and not the
    fallback; of [#12zz] the part that scans, 0x12, is taken. *)
Theorem C9_unparsable_color_is_not_fallback :
  (forall repos generatedAt,
      map (fun m => map Go.DiscordEmbed.Color (Go.DiscordWebhookPayload.Embeds m))
          (Go.buildDiscordMessages repos generatedAt)
      = map (fun repo =>
               [Go.languageToColor
                  (Go.TrendingRepoWithSummary.LanguageColor repo)])
            repos)
  /\ Go.languageToColor EmptyString = 0x7289DA%Z
  /\ Go.languageToColor "#3178c6" = 0x3178c6%Z
  /\ Go.languageToColor "red" = 0%Z
  /\ Go.languageToColor "#12zz" = 0x12%Z.
Proof.
  split; [| vm_compute; repeat split; reflexivity].
  intros repos generatedAt. unfold Go.buildDiscordMessages.
  rewrite buildLoop_spec by apply Nat.le_refl.
  simpl. rewrite map_map. reflexivity.
Qed.

Lemma count_cut (sep : ascii) (s : string) :
  1 <= Str.count sep s -> exists a b, Str.cut sep s = Some (a, b).
Proof.
  intro Hc. destruct (Str.cut sep s) as [[a b] |] eqn:Hcut.
  - now exists a, b.
  - apply cut_None in Hcut. rewrite contains_count in Hcut.
    destruct (Str.count sep s); [lia | discriminate].
Qed.

(** C10. A title with two or more separators reads [owner/seg/rest].  Both
    pipelines keep the item, but the Go command asks for the README of the
    repository named [seg/rest], the TypeScript worker for that of the
    repository named [seg], and the two names differ. *)
Theorem C10_names_differ_after_second_separator
        (title : string)
        (gw : world Go.E) (c : Go.OllamaClient.t) (grepo : Go.TrendingRepo.t)
        (gh : list (event Go.E))
        (apiKey : string) (tw : world TS.E) (trepo : TS.TrendingRepo.t)
        (th : list (event TS.E)) :
  2 <= Str.count Str.slash title ->
  Go.TrendingRepo.Title grepo = title ->
  TS.TrendingRepo.title trepo = title ->
  exists owner seg rest : string,
    title = (owner ++ "/" ++ seg ++ "/" ++ rest)%string
    /\ Str.contains Str.slash owner = false
    /\ Str.contains Str.slash seg = false
    /\ hd_error (trace gw (Go.processRepo c grepo) gh)
       = Some (ev (Go.GetReadme owner (seg ++ "/" ++ rest)%string))
    /\ hd_error (trace tw (TS.enrichRepo apiKey trepo) th)
       = Some (ev (TS.fetch (TS.readmeURL (Some owner) (Some seg) "main")))
    /\ (seg ++ "/" ++ rest)%string <> seg
    /\ (exists item,
           fst (exec gw (Go.processRepo c grepo) gh) = Some item
           /\ Go.source item = grepo)
    /\ TS.source (fst (exec tw (TS.enrichRepo apiKey trepo) th)) = trepo.
Proof.
  intros Hcount Hgo Hts.
  destruct (count_cut Str.slash title) as (owner & b & Hcut); [lia |].
  pose proof (cut_count _ _ _ _ Hcut) as Hcb.
  destruct (count_cut Str.slash b) as (seg & rest & Hcut'); [lia |].
  destruct (cut_Some _ _ _ _ Hcut) as (Htitle & Howner & _).
  destruct (cut_Some _ _ _ _ Hcut') as (Hb & Hseg & Hbsep).
  assert (Hsplit : Str.SplitN (Go.TrendingRepo.Title grepo) Str.slash 2
                   = [owner; b]).
  { rewrite Hgo, SplitN_2, Hcut. reflexivity. }
  assert (Hparts : TS.ownerAndName (TS.TrendingRepo.title trepo)
                   = (Some owner, Some seg)).
  { rewrite Hts. unfold TS.ownerAndName.
    pose proof (split_owner_name Str.slash title) as Hsp.
    rewrite Hcut, Hcut' in Hsp. destruct Hsp as [-> ->]. reflexivity. }
  exists owner, seg, rest.
  change ("/" ++ rest)%string with (String Str.slash rest).
  change ("/" ++ seg ++ String Str.slash rest)%string
    with (String Str.slash (seg ++ String Str.slash rest)).
  rewrite <- Hb. repeat split.
  - exact Htitle.
  - exact Howner.
  - exact Hseg.
  - unfold Go.processRepo. rewrite Hsplit. reflexivity.
  - unfold TS.enrichRepo. rewrite Hparts. reflexivity.
  - intros ->. congruence.
  - rewrite (exec_processRepo gw c grepo owner b gh Hsplit). simpl.
    eexists. split; [reflexivity |]. destruct grepo; reflexivity.
  - apply (ensures_exec _ _ _ tw _ th (enrichRepo_spec apiKey trepo)).
Qed.

Lemma C10_witness :
  let grepo := Examples.goRepo "a/b/c" "foo" in
  let trepo := Examples.tsRepo "a/b/c" "foo" in
  let gw := Examples.goWorld [grepo] Examples.goNoReadme "要約" in
  let tw := Examples.tsWorld [trepo] Examples.tsNoReadme
              (TS.Returned (Some "要約")) in
  exists owner seg rest : string,
    "a/b/c" = (owner ++ "/" ++ seg ++ "/" ++ rest)%string
    /\ Str.contains Str.slash owner = false
    /\ Str.contains Str.slash seg = false
    /\ hd_error (trace gw (Go.processRepo Examples.goClient grepo) [])
       = Some (ev (Go.GetReadme owner (seg ++ "/" ++ rest)%string))
    /\ hd_error (trace tw (TS.enrichRepo "key" trepo) [])
       = Some (ev (TS.fetch (TS.readmeURL (Some owner) (Some seg) "main")))
    /\ (seg ++ "/" ++ rest)%string <> seg
    /\ (exists item,
           fst (exec gw (Go.processRepo Examples.goClient grepo) []) = Some item
           /\ Go.source item = grepo)
    /\ TS.source (fst (exec tw (TS.enrichRepo "key" trepo) [])) = trepo.
Proof.
  intros grepo trepo gw tw.
  apply (C10_names_differ_after_second_separator "a/b/c"
           gw Examples.goClient grepo [] "key" tw trepo []).
  - vm_compute. lia.
  - reflexivity.
  - reflexivity.
Defined.

End Pipelines.

(* ================================================================== *)
(** * More facts about programs *)
(* ================================================================== *)

Section ObsFacts.

Import Obs.
Local Open Scope list_scope.

Variable E : Type -> Type.

Lemma every_weaken (A : Type) (Q Q' : event E -> Prop) (p : prog E A) :
  (forall e, Q e -> Q' e) -> every Q p -> every Q' p.
Proof.
  intro HQ. induction p as [a | X e k IH]; simpl; [auto |].
  intros [He Hk]. split; [now apply HQ | intro x; apply IH, Hk].
Qed.

Lemma every_bind (A B : Type) (Q : event E -> Prop) (p : prog E A)
      (f : A -> prog E B) :
  every Q p -> (forall a, every Q (f a)) -> every Q (bind p f).
Proof.
  intros Hp Hf. induction p as [a | X e k IH]; simpl in *.
  - apply Hf.
  - destruct Hp as [He Hk]. split; [exact He | intro x; apply IH, Hk].
Qed.

Lemma every_trace (A : Type) (Q : event E -> Prop) (w : world E)
      (p : prog E A) (h : list (event E)) :
  every Q p -> Forall Q (trace w p h).
Proof.
  revert h. induction p as [a | X e k IH]; intros h Hp; simpl in *.
  - constructor.
  - destruct Hp as [He Hk]. constructor; [exact He | apply IH, Hk].
Qed.

(** When no call of [p] shows anything through [f], nothing shows in its
    trace. *)
Lemma every_silent (A B : Type) (f : event E -> list B) (w : world E)
      (p : prog E A) (h : list (event E)) :
  every (fun e => f e = []) p -> flat_map f (trace w p h) = [].
Proof.
  intro Hp. pose proof (every_trace _ _ w p h Hp) as HF.
  induction HF as [| e l He _ IH]; simpl; [reflexivity |].
  now rewrite He, IH.
Qed.

Lemma every_shown (A B : Type) (f : event E -> list B) (P : B -> Prop)
      (w : world E) (p : prog E A) (h : list (event E)) :
  every (fun e => Forall P (f e)) p -> Forall P (flat_map f (trace w p h)).
Proof.
  intro Hp. pose proof (every_trace _ _ w p h Hp) as HF.
  induction HF as [| e l He _ IH]; simpl; [constructor |].
  apply Forall_app. split; assumption.
Qed.

Lemma tracks_weaken (A : Type) (P Q : A -> list (event E) -> Prop)
      (p : prog E A) :
  (forall a l, P a l -> Q a l) -> tracks P p -> tracks Q p.
Proof.
  revert P Q. induction p as [a | X e k IH]; intros P Q HPQ; simpl.
  - apply HPQ.
  - intros H x. apply (IH x (fun a l => P a (ev e :: l))); [| apply H].
    intros a l. apply HPQ.
Qed.

Lemma tracks_bind (A B : Type) (Q : A -> list (event E) -> Prop)
      (P : B -> list (event E) -> Prop) (p : prog E A) (f : A -> prog E B) :
  tracks Q p ->
  (forall a l, Q a l -> tracks (fun b l' => P b (l ++ l')) (f a)) ->
  tracks P (bind p f).
Proof.
  revert P Q. induction p as [a | X e k IH]; intros P Q Hp Hf; simpl in *.
  - apply (Hf a [] Hp).
  - intro x.
    apply (IH x (fun b l => P b (ev e :: l)) (fun a l => Q a (ev e :: l)));
      [apply Hp |].
    intros a l HQ. apply (Hf a (ev e :: l) HQ).
Qed.

Lemma tracks_exec (A : Type) (P : A -> list (event E) -> Prop) (w : world E)
      (p : prog E A) (h : list (event E)) :
  tracks P p -> P (fst (exec w p h)) (trace w p h).
Proof.
  revert P h. induction p as [a | X e k IH]; intros P h Hp; simpl in *.
  - exact Hp.
  - apply (IH _ (fun a l => P a (ev e :: l))), Hp.
Qed.



(** In a stateless world a program ends with the same value and makes the
    same calls from every history. *)
Lemma exec_stateless (A : Type) (w : world E) (p : prog E A)
      (h h' : list (event E)) :
  stateless w ->
  fst (exec w p h) = fst (exec w p h') /\ trace w p h = trace w p h'.
Proof.
  intro Hw. revert h h'.
  induction p as [a | X e k IH]; intros h h'; simpl.
  - split; reflexivity.
  - rewrite (Hw X h h' e).
    destruct (IH (w X h' e) (h ++ [ev e]) (h' ++ [ev e])) as [Hv Ht].
    split; [exact Hv | now rewrite Ht].
Qed.

End ObsFacts.

(** One step through a program while following its calls. *)
Ltac tracks_step :=
  lazymatch goal with
  | |- forall _, _ => intro
  | |- Obs.tracks _ (Vis _ _) => cbn [Obs.tracks]
  | |- Obs.tracks _ (bind (call _) _) => cbn [bind call Obs.tracks]
  | |- Obs.tracks _ (call _) => cbn [call Obs.tracks]
  | |- Obs.tracks _ (Ret _) => cbn [Obs.tracks]
  | |- Obs.tracks _ (match ?x with _ => _ end) => destruct x eqn:?
  | |- Obs.tracks _ (let _ := _ in _) => cbv zeta
  end.

Ltac every_step :=
  lazymatch goal with
  | |- Obs.every _ (bind _ _) => apply every_bind; [| intro]
  | |- Obs.every _ (call _) => cbn [call Obs.every]; split; [| intro; exact I]
  | |- Obs.every _ (Ret _) => exact I
  | |- Obs.every _ (match ?x with _ => _ end) => destruct x eqn:?
  | |- Obs.every _ (let _ := _ in _) => cbv zeta
  end.

(* ================================================================== *)
(** * More facts about the Go command *)
(* ================================================================== *)

Section GoMore.

Import Go Obs.
Local Open Scope list_scope.

(** ** Which calls each function makes *)

Ltac only_solve := repeat every_step; unfold only; cbn; tauto.

Lemma fetchTrendingRepos_only :
  every (only [KNewRequest; KDoTrending]) fetchTrendingRepos.
Proof.
  unfold fetchTrendingRepos. only_solve.
Qed.

Lemma fetchReadme_only (owner name : string) :
  every (only [KGetReadme]) (fetchReadme owner name).
Proof.
  unfold fetchReadme. only_solve.
Qed.




Lemma postDiscordWebhook_only (url : string) (payload : DiscordWebhookPayload.t) :
  every (only [KNewRequest; KDoDiscord]) (postDiscordWebhook url payload).
Proof.
  unfold postDiscordWebhook. only_solve.
Qed.

Lemma sendLoop_only (url : string) (i total : nat)
      (messages : list DiscordWebhookPayload.t) :
  every (only [KNewRequest; KDoDiscord; KSleep]) (sendLoop url i total messages).
Proof.
  revert i. induction messages as [| msg messages IH]; intro i;
    cbn [sendLoop].
  - exact I.
  - apply every_bind.
    + eapply every_weaken; [| apply postDiscordWebhook_only].
      unfold only. cbn. tauto.
    + intros [[] | e]; [| apply IH].
      apply every_bind; [| intro; apply IH].
      destruct (i <? total - 1)%nat; [| exact I].
      cbn [call every]. split; [unfold only; cbn; tauto | intro; exact I].
Qed.

Lemma sendDiscordNotification_only (url : string)
      (repos : list TrendingRepoWithSummary.t) (generatedAt : Time.t) :
  every (only [KNewRequest; KDoDiscord; KSleep])
        (sendDiscordNotification url repos generatedAt).
Proof.
  unfold sendDiscordNotification.
  destruct (url =? EmptyString)%string; [exact I | apply sendLoop_only].
Qed.


Ltac kinds_silent :=
  let X := fresh "X" in
  let e := fresh "e" in
  intros [X e]; unfold only, kind_of; destruct e; cbn;
  intuition congruence.

(** ** [run] without a model *)

(** X1. When [OLLAMA_MODEL] is not set, [run] returns the error
    ["OLLAMA_MODEL is not set"] having read two environment variables and
    done nothing else: no request, no file, no message. *)
Theorem run_without_model (w : world E) (h : list (event E)) :
  w _ (h ++ [ev (Getenv "OLLAMA_HOST")]) (Getenv "OLLAMA_MODEL") = EmptyString ->
  exec w run h
  = (Err "OLLAMA_MODEL is not set",
     h ++ [ev (Getenv "OLLAMA_HOST"); ev (Getenv "OLLAMA_MODEL")]).
Proof.
  intro Hmodel. unfold run. cbn [bind call exec]. rewrite Hmodel.
  cbn [String.eqb exec]. rewrite <- app_assoc. reflexivity.
Qed.

Lemma run_without_model_witness :
  let w := Cases.goWorld Cases.noEnv Cases.feed Examples.goNoReadme "要約"
             (Ok 204%Z) in
  exec w run []
  = (Err "OLLAMA_MODEL is not set",
     [ev (Getenv "OLLAMA_HOST"); ev (Getenv "OLLAMA_MODEL")]).
Proof.
  intro w. apply (run_without_model w []). reflexivity.
Defined.

(** ** What [run] writes and sends *)




Lemma posts_app (l l' : list (event E)) : posts (l ++ l') = posts l ++ posts l'.
Proof. apply flat_map_app. Qed.








(** ** The requests to the generation backend *)

Ltac every_walk :=
  repeat lazymatch goal with
         | |- _ /\ _ => split
         | |- forall _, _ => intro
         | |- True => exact I
         | |- every _ (Vis _ _) => cbn [every]
         | |- every _ (Ret _) => exact I
         | |- every _ (match ?x with _ => _ end) => destruct x eqn:?
         | |- every _ (let _ := _ in _) => cbv zeta
         end.

Lemma no_ollama (ks : list kind) (e : event E) :
  ~ In KDoOllama ks -> only ks e -> ollama_of e = [].
Proof.
  destruct e as [X e]. unfold only, kind_of. destruct e; cbn; try reflexivity.
  tauto.
Qed.

Lemma Summarize_ofClient (c : OllamaClient.t) (readme : string) :
  every (fun e => Forall (ofClient c) (ollama_of e)) (Summarize c readme).
Proof.
  unfold Summarize. cbn [bind call]. every_walk;
    cbn [ollama_of projT2 ev]; repeat constructor.
Qed.

Lemma processRepos_ofClient (c : OllamaClient.t) (repos : list TrendingRepo.t)
      (results : list TrendingRepoWithSummary.t) :
  every (fun e => Forall (ofClient c) (ollama_of e))
        (processRepos c repos results).
Proof.
  revert results. induction repos as [| repo repos IH]; intro results;
    cbn [processRepos].
  - exact I.
  - apply every_bind; [| intros [item |]; apply IH].
    unfold processRepo.
    destruct (Str.SplitN (TrendingRepo.Title repo) Str.slash 2)
      as [| owner [| name [| x l]]]; try exact I.
    apply every_bind.
    + eapply every_weaken; [| apply fetchReadme_only].
      intros e He. rewrite (no_ollama _ e) with (2 := He); [constructor |].
      cbn. intuition congruence.
    + intro r. apply every_bind; [apply Summarize_ofClient | intro; exact I].
Qed.

(** X3. Every request [run] sends to the generation backend goes to
    [/api/generate] under the value of [OLLAMA_HOST], or under
    [http://localhost:11434] when that is empty, names the model given in
    [OLLAMA_MODEL] and asks for no streaming. *)
Theorem run_requests_follow_environment (w : world E) (h : list (event E)) :
  let host := w _ h (Getenv "OLLAMA_HOST") in
  let model := w _ (h ++ [ev (Getenv "OLLAMA_HOST")]) (Getenv "OLLAMA_MODEL") in
  let base := if (host =? EmptyString)%string then defaultOllamaURL else host in
  Forall (fun r => fst r = (base ++ "/api/generate")%string
                   /\ OllamaRequest.Model (snd r) = model
                   /\ OllamaRequest.Stream (snd r) = false)
         (ollamaRequests (trace w run h)).
Proof.
  intros host model base. unfold run. cbn [bind call trace].
  fold host. fold model. fold base.
  destruct (model =? EmptyString)%string; cbn [trace]; [constructor |].
  unfold ollamaRequests. cbn [flat_map ollama_of projT2 ev app].
  apply every_shown with (P := ofClient (OllamaClient.mk base model)).
  apply every_bind.
  { eapply every_weaken; [| apply fetchTrendingRepos_only].
    intros e He. rewrite (no_ollama _ e) with (2 := He); [constructor |].
    cbn. intuition congruence. }
  intros [repos | e]; [| exact I].
  apply every_bind; [apply processRepos_ofClient |].
  intro results. every_walk; try (cbn [ollama_of projT2 ev]; constructor).
  apply every_bind; [| intro; exact I].
  eapply every_weaken; [| apply sendDiscordNotification_only].
  intros e He. rewrite (no_ollama _ e) with (2 := He); [constructor |].
  cbn. intuition congruence.
Qed.

(** ** The README requests of the loop *)

Lemma readmes_app (l l' : list (event E)) :
  readmes (l ++ l') = readmes l ++ readmes l'.
Proof. apply flat_map_app. Qed.

Lemma prompts_app (l l' : list (event E)) :
  prompts (l ++ l') = prompts l ++ prompts l'.
Proof. apply flat_map_app. Qed.

Lemma summarize_kinds_no_readme (e : event E) :
  only [KNewRequest; KDoOllama] e -> readme_of e = [].
Proof. revert e. kinds_silent. Qed.

Lemma fetchReadme_tracks (owner name : string) :
  tracks (fun _ l => readmes l = [(owner, name)] /\ prompts l = [])
         (fetchReadme owner name).
Proof.
  unfold fetchReadme. cbn [bind call]. repeat tracks_step; split; reflexivity.
Qed.

Lemma Summarize_tracks (c : OllamaClient.t) (readme : string) :
  tracks (fun _ l => readmes l = [] /\ List.length (prompts l) <= 1)
         (Summarize c readme).
Proof.
  unfold Summarize. cbn [bind call]. repeat tracks_step;
    cbn [readmes prompts flat_map readme_of prompt_of projT2 ev app
         Datatypes.length];
    split; auto.
Qed.

Lemma processRepo_tracks (c : OllamaClient.t) (repo : TrendingRepo.t) :
  tracks (fun r l =>
            readmes l = ownerAndName repo
            /\ match r with
               | Some _ => List.length (readmes l) = 1
                           /\ List.length (prompts l) <= 1
               | None => l = []
               end)
         (processRepo c repo).
Proof.
  unfold processRepo, ownerAndName.
  destruct (Str.SplitN (TrendingRepo.Title repo) Str.slash 2)
    as [| owner [| name [| x l]]]; try (split; reflexivity).
  eapply tracks_bind; [apply fetchReadme_tracks |].
  intros r l1 [Hr1 Hp1].
  eapply tracks_bind; [apply Summarize_tracks |].
  intros s l2 [Hr2 Hp2]. cbn [tracks].
  rewrite !readmes_app, !prompts_app, Hr1, Hp1, Hr2, !app_nil_r.
  cbn [app Datatypes.length]. auto.
Qed.

Lemma processRepos_tracks (c : OllamaClient.t) (repos : list TrendingRepo.t)
      (results : list TrendingRepoWithSummary.t) :
  tracks (fun out l =>
            readmes l = flat_map ownerAndName repos
            /\ List.length (readmes l) + List.length results = List.length out
            /\ List.length (prompts l) + List.length results
               <= List.length out)
         (processRepos c repos results).
Proof.
  revert results. induction repos as [| repo repos IH]; intro results;
    cbn [processRepos].
  - cbn. auto.
  - eapply tracks_bind; [apply processRepo_tracks |].
    intros r l1 [Hr1 Hshape]. destruct r as [item |].
    + destruct Hshape as [Hn1 Hp1].
      eapply tracks_weaken; [| apply IH].
      intros out l2 (Hr2 & Hn2 & Hp2).
      rewrite length_app in Hn2, Hp2. cbn [Datatypes.length] in Hn2, Hp2.
      rewrite !readmes_app, !prompts_app, !length_app.
      cbn [flat_map]. split; [now rewrite Hr1, Hr2 |]. lia.
    + subst l1. eapply tracks_weaken; [| apply IH].
      intros out l2 (Hr2 & Hn2 & Hp2). cbn [app flat_map].
      rewrite <- Hr1. cbn [readmes flat_map app]. auto.
Qed.

Lemma ownerAndName_spec (repo : TrendingRepo.t) (owner name : string) :
  In (owner, name) (ownerAndName repo) ->
  TrendingRepo.Title repo = (owner ++ "/" ++ name)%string
  /\ Str.contains Str.slash owner = false.
Proof.
  unfold ownerAndName. rewrite SplitN_2.
  destruct (Str.cut Str.slash (TrendingRepo.Title repo)) as [[a b] |] eqn:Hcut;
    cbn; [| tauto].
  intros [H | []]. injection H as <- <-.
  apply cut_Some in Hcut. destruct Hcut as (Ht & Ha & _). split; assumption.
Qed.

(** X4. The loop of [run] asks for the README of exactly the repositories
    whose title holds the separator, in the order of the list, under the
    owner and name the title splits into at its first ["/"]: the two
    rejoin to the title, and the owner holds no ["/"]. *)
Theorem processRepos_readme_requests
        (w : world E) (c : OllamaClient.t) (repos : list TrendingRepo.t)
        (h : list (event E)) :
  readmes (trace w (processRepos c repos []) h) = flat_map ownerAndName repos
  /\ Forall (fun asked =>
               exists repo,
                 In repo repos
                 /\ TrendingRepo.Title repo
                    = (fst asked ++ "/" ++ snd asked)%string
                 /\ Str.contains Str.slash (fst asked) = false)
            (readmes (trace w (processRepos c repos []) h)).
Proof.
  pose proof (tracks_exec _ _ _ w _ h (processRepos_tracks c repos []))
    as (Hr & _). cbv beta in Hr. split; [exact Hr |].
  rewrite Hr. apply Forall_forall. intros [owner name] Hin.
  apply in_flat_map in Hin. destruct Hin as (repo & Hrepo & Hin).
  exists repo. split; [exact Hrepo |]. now apply ownerAndName_spec.
Qed.

(** X5. The loop of [run] makes exactly one README request and at most one
    request to the generation backend for each item it puts out: nothing
    is tried twice, and nothing is asked for an item that is left out. *)
Theorem processRepos_one_attempt_per_item
        (w : world E) (c : OllamaClient.t) (repos : list TrendingRepo.t)
        (h : list (event E)) :
  let out := fst (exec w (processRepos c repos []) h) in
  let calls := trace w (processRepos c repos []) h in
  List.length (readmes calls) = List.length out
  /\ List.length (prompts calls) <= List.length out
  /\ List.length out <= List.length repos.
Proof.
  intros out calls.
  pose proof (tracks_exec _ _ _ w _ h (processRepos_tracks c repos []))
    as (_ & Hn & Hp). cbv beta in Hn, Hp. fold out calls in Hn, Hp.
  cbn [Datatypes.length] in Hn, Hp. repeat split; try lia.
  unfold out. rewrite <- (length_map source), processRepos_source.
  apply filter_length_le.
Qed.

(** ** Fetching the trending list *)

(** X6. [fetchTrendingRepos] returns a list only when the one request it
    sends was answered with status 200 and a body that decodes, and the
    list is the [items] of that body; it has then made exactly one
    request. *)
Theorem fetchTrendingRepos_returns
        (w : world E) (h : list (event E)) (items : list TrendingRepo.t) :
  fst (exec w fetchTrendingRepos h) = Ok items ->
  trendingRequests (trace w fetchTrendingRepos h) = [trendingAPIURL]
  /\ exists resp,
       w _ (h ++ [ev (NewRequest "GET" trendingAPIURL)])
         (DoTrending trendingAPIURL) = Ok resp
       /\ Response.StatusCode resp = 200%Z
       /\ Response.Decode resp = Ok (TrendingAPIResponse.mk items).
Proof.
  unfold fetchTrendingRepos. cbn [bind call exec trace].
  destruct (w _ h (NewRequest "GET" trendingAPIURL)) as [[] | e];
    cbn [bind exec trace]; [| discriminate].
  destruct (w _ (h ++ [ev (NewRequest "GET" trendingAPIURL)])
              (DoTrending trendingAPIURL)) as [resp | e];
    cbn [exec trace]; [| discriminate].
  destruct (Response.StatusCode resp =? StatusOK)%Z eqn:Hstatus;
    cbn [negb exec trace]; [| discriminate].
  destruct (Response.Decode resp) as [[items'] | e] eqn:Hdecode;
    cbn [exec trace fst]; [| discriminate].
  intro H. injection H as <-. split; [reflexivity |].
  exists resp. repeat split; [now apply Z.eqb_eq | exact Hdecode].
Qed.

Lemma fetchTrendingRepos_returns_witness :
  let w := Cases.goWorld Cases.fullEnv Cases.feed Examples.goNoReadme "要約"
             (Ok 204%Z) in
  trendingRequests (trace w fetchTrendingRepos []) = [trendingAPIURL]
  /\ exists resp,
       w _ ([] ++ [ev (NewRequest "GET" trendingAPIURL)])
         (DoTrending trendingAPIURL) = Ok resp
       /\ Response.StatusCode resp = 200%Z
       /\ Response.Decode resp = Ok (TrendingAPIResponse.mk Cases.feed).
Proof.
  intro w. apply (fetchTrendingRepos_returns w [] Cases.feed). reflexivity.
Defined.

(** ** The webhook *)

(** X7. [postDiscordWebhook] succeeds exactly when the request could be
    created, was answered, and the status is from 200 to 299. *)
Theorem postDiscordWebhook_accepts_2xx
        (w : world E) (url : string) (payload : DiscordWebhookPayload.t)
        (h : list (event E)) :
  fst (exec w (postDiscordWebhook url payload) h) = Ok tt
  <-> exists status,
        w _ h (NewRequest "POST" url) = Ok tt
        /\ w _ (h ++ [ev (NewRequest "POST" url)]) (DoDiscord url payload)
           = Ok status
        /\ (200 <= status < 300)%Z.
Proof.
  unfold postDiscordWebhook. cbn [bind call exec].
  destruct (w _ h (NewRequest "POST" url)) as [[] | e]; cbn [bind exec fst].
  - destruct (w _ (h ++ [ev (NewRequest "POST" url)]) (DoDiscord url payload))
      as [status | e]; cbn [exec fst].
    + destruct (Z.ltb_spec status 200); destruct (Z.leb_spec 300 status);
        cbn [orb exec fst];
        (split;
         [ first [ discriminate
                 | intros _; exists status; repeat split;
                   first [reflexivity | lia] ]
         | first [ intros _; reflexivity
                 | intros (s & _ & Hs & Hr); injection Hs as <-; lia ] ]).
    + split; [discriminate |]. intros (s & _ & Hs & _). discriminate.
  - split; [discriminate |]. intros (s & Hs & _). discriminate.
Qed.

Lemma requests_app (l l' : list (event E)) :
  requests (l ++ l') = requests l ++ requests l'.
Proof. apply flat_map_app. Qed.

Lemma sleeps_app (l l' : list (event E)) :
  sleeps (l ++ l') = sleeps l ++ sleeps l'.
Proof. apply flat_map_app. Qed.

Lemma postDiscordWebhook_tracks (url : string)
      (payload : DiscordWebhookPayload.t) :
  tracks (fun r l =>
            requests l = [("POST", url)] /\ sleeps l = []
            /\ (posts l = [] \/ posts l = [(url, payload)])
            /\ (r = Ok tt -> posts l = [(url, payload)]))
         (postDiscordWebhook url payload).
Proof.
  unfold postDiscordWebhook. cbn [bind call]. repeat tracks_step;
    cbn; repeat split; auto; discriminate.
Qed.

Lemma sendLoop_tracks (url : string) (total : nat)
      (messages : list DiscordWebhookPayload.t) (i : nat) :
  i + List.length messages = total ->
  tracks (fun _ l =>
            requests l = map (fun _ => ("POST", url)) messages
            /\ List.length (posts l) <= List.length messages
            /\ List.length (sleeps l) <= List.length (posts l)
            /\ List.length (sleeps l) <= List.length messages - 1
            /\ Forall (fun ms => ms = 500%Z) (sleeps l)
            /\ Forall (fun p => fst p = url /\ In (snd p) messages) (posts l))
         (sendLoop url i total messages).
Proof.
  revert i. induction messages as [| msg messages IH]; intros i Hi;
    cbn [sendLoop].
  - cbn. repeat split; auto.
  - eapply tracks_bind; [apply postDiscordWebhook_tracks |].
    intros r l1 (Hq1 & Hs1 & Hp1 & Hok).
    assert (Hrest : forall l0,
               requests l0 = [] -> posts l0 = [] ->
               (sleeps l0 = []
                \/ (sleeps l0 = [500%Z] /\ r = Ok tt
                    /\ 1 <= List.length messages)) ->
               tracks
                 (fun (_ : unit) l' =>
                    (fun (_ : unit) l =>
                       requests l = map (fun _ => ("POST", url)) (msg :: messages)
                       /\ List.length (posts l) <= List.length (msg :: messages)
                       /\ List.length (sleeps l) <= List.length (posts l)
                       /\ List.length (sleeps l)
                          <= List.length (msg :: messages) - 1
                       /\ Forall (fun ms => ms = 500%Z) (sleeps l)
                       /\ Forall (fun p => fst p = url
                                           /\ In (snd p) (msg :: messages))
                                 (posts l)) tt (l1 ++ l0 ++ l'))
                 (sendLoop url (S i) total messages)).
    { intros l0 Hq0 Hp0 Hs0.
      eapply tracks_weaken; [| apply (IH (S i))]; [| cbn in Hi; lia].
      intros [] l2 (Hq2 & Hn2 & Hsp2 & Hs2 & H500 & Hin2).
      rewrite !requests_app, !posts_app, !sleeps_app, !length_app,
        Hq1, Hq0, Hq2, Hs1, Hp0.
      cbn [app map Datatypes.length].
      assert (Hin : Forall (fun p => fst p = url /\ In (snd p) (msg :: messages))
                           (posts l1 ++ posts l2)).
      { apply Forall_app. split.
        - destruct Hp1 as [-> | ->]; repeat constructor.
        - eapply Forall_impl; [| exact Hin2]. cbn. intros p [? ?]. auto. }
      assert (Hlen1 : List.length (posts l1) <= 1)
        by (destruct Hp1 as [-> | ->]; cbn; lia).
      destruct Hs0 as [-> | (-> & Hr & Hm)].
      - cbn [app Datatypes.length]. repeat split; auto; lia.
      - assert (Hone : List.length (posts l1) = 1)
          by (rewrite (Hok Hr); reflexivity).
        cbn [app Datatypes.length]. repeat split; auto; lia. }
    destruct r as [[] | e].
    + eapply tracks_bind
        with (Q := fun (_ : unit) l0 =>
                     requests l0 = [] /\ posts l0 = []
                     /\ (sleeps l0 = []
                         \/ (sleeps l0 = [500%Z]
                             /\ 1 <= List.length messages))).
      * destruct (Nat.ltb_spec i (total - 1)); cbn; intros; repeat split; auto.
        right. split; [reflexivity |]. cbn in Hi. lia.
      * intros [] l0 (Hq0 & Hp0 & Hs0). apply Hrest; auto.
        destruct Hs0 as [Hs0 | [Hs0 Hm]]; auto.
    + specialize (Hrest [] eq_refl eq_refl (or_introl eq_refl)).
      exact Hrest.
Qed.

Lemma buildDiscordMessages_map (repos : list TrendingRepoWithSummary.t)
      (generatedAt : Time.t) :
  buildDiscordMessages repos generatedAt
  = map (fun repo => DiscordWebhookPayload.mk EmptyString [buildEmbed repo])
        repos.
Proof.
  unfold buildDiscordMessages. rewrite buildLoop_spec by apply Nat.le_refl.
  reflexivity.
Qed.

(** X8. [sendDiscordNotification] builds no request when the webhook URL
    is empty.  Otherwise it builds one POST request per repository,
    whether or not earlier ones failed; what it sends are messages of
    [buildDiscordMessages], to that URL, at most one per repository; it
    pauses at most once per message sent and fewer times than there are
    repositories, each time for 500 ms. *)
Theorem sendDiscordNotification_attempts
        (w : world E) (url : string) (repos : list TrendingRepoWithSummary.t)
        (generatedAt : Time.t) (h : list (event E)) :
  let calls := trace w (sendDiscordNotification url repos generatedAt) h in
  requests calls
  = (if (url =? EmptyString)%string then []
     else map (fun _ => ("POST", url)) repos)
  /\ List.length (posts calls) <= List.length repos
  /\ List.length (sleeps calls) <= List.length (posts calls)
  /\ List.length (sleeps calls) <= List.length repos - 1
  /\ Forall (fun ms => ms = 500%Z) (sleeps calls)
  /\ Forall (fun p => fst p = url
                      /\ In (snd p) (buildDiscordMessages repos generatedAt))
            (posts calls).
Proof.
  intro calls. unfold calls, sendDiscordNotification.
  destruct (url =? EmptyString)%string.
  - cbn. repeat split; auto; lia.
  - cbv zeta.
    assert (Hlen : List.length (buildDiscordMessages repos generatedAt)
                   = List.length repos)
      by (rewrite buildDiscordMessages_map; apply length_map).
    assert (Hmap : map (fun _ => ("POST", url))
                       (buildDiscordMessages repos generatedAt)
                   = map (fun _ => ("POST", url)) repos)
      by (rewrite buildDiscordMessages_map; apply map_map).
    pose proof (tracks_exec _ _ _ w _ h
                  (sendLoop_tracks url _ (buildDiscordMessages repos generatedAt)
                     0 eq_refl)) as H.
    cbv beta in H. rewrite Hmap in H. cbn [Nat.add] in H.
    rewrite Hlen in H |- *. exact H.
Qed.

(** X9. [buildDiscordMessages] makes one message per repository, in order,
    each with one embed that carries the title, the URL and, as its
    description, the summary of the repository, with the two fields for the
    language, ["不明"] when there is none, and for the stars. *)
Theorem buildDiscordMessages_one_per_repository
        (repos : list TrendingRepoWithSummary.t) (generatedAt : Time.t) :
  List.length (buildDiscordMessages repos generatedAt) = List.length repos
  /\ forall i repo,
       nth_error repos i = Some repo ->
       exists embed,
         nth_error (buildDiscordMessages repos generatedAt) i
         = Some (DiscordWebhookPayload.mk EmptyString [embed])
         /\ DiscordEmbed.Title embed = TrendingRepoWithSummary.Title repo
         /\ DiscordEmbed.URL embed = TrendingRepoWithSummary.URL repo
         /\ DiscordEmbed.Description embed = TrendingRepoWithSummary.Summary repo
         /\ map DiscordEmbedField.Value (DiscordEmbed.Fields embed)
            = [ (if (TrendingRepoWithSummary.Language repo =? EmptyString)%string
                 then "不明" else TrendingRepoWithSummary.Language repo);
                (TrendingRepoWithSummary.Stars repo ++ " (+"
                 ++ TrendingRepoWithSummary.AddStars repo ++ ")")%string ].
Proof.
  rewrite buildDiscordMessages_map. split; [apply length_map |].
  intros i repo Hi. exists (buildEmbed repo). split.
  - rewrite nth_error_map, Hi. reflexivity.
  - unfold buildEmbed. cbn. repeat split; reflexivity.
Qed.

(** ** Colors *)

Lemma hex_number_bound (digits : string) :
  Fmt.all_hex digits = true ->
  (0 <= Fmt.hex_number digits < 16 ^ Z.of_nat (String.length digits))%Z.
Proof.
  intro Hall. unfold Fmt.hex_number.
  destruct (digits_value_all_hex digits 0 Hall) as (v & -> & Hb); [lia |].
  lia.
Qed.

(** X10. A language color written as one to fifteen hexadecimal digits,
    with or without a leading [#], becomes the number the digits write;
    for the six digits of [#RRGGBB] that is a number below 2^24. *)
Theorem languageToColor_of_hex (digits : string) :
  digits <> EmptyString -> Fmt.all_hex digits = true ->
  String.length digits <= 15 ->
  languageToColor (String "#" digits) = Fmt.hex_number digits
  /\ languageToColor digits = Fmt.hex_number digits
  /\ (0 <= Fmt.hex_number digits < 16 ^ Z.of_nat (String.length digits))%Z
  /\ (String.length digits = 6 -> (Fmt.hex_number digits < 2 ^ 24)%Z).
Proof.
  intros Hne Hall Hlen.
  pose proof (hex_number_bound digits Hall) as Hb.
  split; [now apply languageToColor_hex |].
  split; [| split; [exact Hb |]].
  - unfold languageToColor. destruct digits as [| c s]; [contradiction |].
    cbn [String.eqb]. unfold Str.TrimPrefix. cbn [String.prefix].
    pose proof Hall as Hc. cbn [Fmt.all_hex] in Hc.
    destruct (Fmt.hex_value c) as [d |] eqn:Hd; [| discriminate].
    assert (Hsharp : Ascii.eqb c "#"%char = false).
    { apply Ascii.eqb_neq. intros ->. discriminate. }
    destruct (ascii_dec "#" c) as [<- | Hneq]; [discriminate |].
    now rewrite Sscanf_x_hex.
  - intro H6. rewrite H6 in Hb. change (16 ^ Z.of_nat 6)%Z with (2 ^ 24)%Z in Hb.
    lia.
Qed.

Lemma languageToColor_of_hex_witness :
  languageToColor "#00ADD8" = Fmt.hex_number "00ADD8"
  /\ languageToColor "00ADD8" = Fmt.hex_number "00ADD8"
  /\ (0 <= Fmt.hex_number "00ADD8" < 16 ^ Z.of_nat (String.length "00ADD8"))%Z
  /\ (String.length "00ADD8" = 6 -> (Fmt.hex_number "00ADD8" < 2 ^ 24)%Z).
Proof.
  apply (languageToColor_of_hex "00ADD8").
  - discriminate.
  - reflexivity.
  - vm_compute. lia.
Defined.

(** ** Empty summaries *)

(** X11. The summary [run] keeps for an item is the empty string in one
    case only: the backend was reached, answered 200 with a reply that is
    not empty, and trimming the white space off the reply left nothing. *)
Theorem go_summary_empty_only_after_trim
        (w : world E) (c : OllamaClient.t) (readme : string)
        (h : list (event E)) :
  summaryOr (fst (exec w (Summarize c readme) h)) = EmptyString ->
  exists resp reply,
    w _ (h ++ [ev (NewRequest "POST"
                     (OllamaClient.BaseURL c ++ "/api/generate")%string)])
      (DoOllama (OllamaClient.BaseURL c ++ "/api/generate")%string
         (OllamaRequest.mk (OllamaClient.Model c)
            (promptHead
             ++ (if (maxReadmeLen <? String.length readme)%nat
                 then Str.take maxReadmeLen readme else readme))%string
            false))
    = Ok resp
    /\ Response.StatusCode resp = StatusOK
    /\ Response.Decode resp = Ok (OllamaResponse.mk reply)
    /\ reply <> EmptyString
    /\ Str.TrimSpace reply = EmptyString.
Proof.
  apply Summarize_empty_summary.
Qed.

Lemma go_summary_empty_only_after_trim_witness :
  let w := Cases.goWorld Cases.fullEnv Cases.feed (Examples.goReadme "text")
             (" " ++ nl)%string (Ok 204%Z) in
  exists resp reply,
    w _ ([] ++ [ev (NewRequest "POST"
                      (OllamaClient.BaseURL Examples.goClient
                       ++ "/api/generate")%string)])
      (DoOllama (OllamaClient.BaseURL Examples.goClient ++ "/api/generate")%string
         (OllamaRequest.mk (OllamaClient.Model Examples.goClient)
            (promptHead
             ++ (if (maxReadmeLen <? String.length "text")%nat
                 then Str.take maxReadmeLen "text" else "text"))%string
            false))
    = Ok resp
    /\ Response.StatusCode resp = StatusOK
    /\ Response.Decode resp = Ok (OllamaResponse.mk reply)
    /\ reply <> EmptyString
    /\ Str.TrimSpace reply = EmptyString.
Proof.
  intro w.
  apply (go_summary_empty_only_after_trim w Examples.goClient "text" []).
  vm_compute. reflexivity.
Defined.
End GoMore.

(* ================================================================== *)
(** * The feed document of the Go command *)
(* ================================================================== *)

Section FeedFacts.

Import Go GoFeed.
Local Open Scope list_scope.

Lemma count_append (c : ascii) (a b : string) :
  Str.count c (a ++ b)%string = Str.count c a + Str.count c b.
Proof.
  induction a as [| x a IH]; cbn [append Str.count]; [reflexivity |].
  rewrite IH. apply Nat.add_assoc.
Qed.

Lemma count_escapeChar (c x : ascii) :
  In c markup -> Str.count c (escapeChar x) = 0.
Proof.
  intro Hc. unfold escapeChar.
  destruct (Ascii.eqb x "&") eqn:H1;
    [destruct Hc as [<- | [<- | [<- | [<- | []]]]]; reflexivity |].
  destruct (Ascii.eqb x apostrophe) eqn:H2;
    [destruct Hc as [<- | [<- | [<- | [<- | []]]]]; reflexivity |].
  destruct (Ascii.eqb x "<") eqn:H3;
    [destruct Hc as [<- | [<- | [<- | [<- | []]]]]; reflexivity |].
  destruct (Ascii.eqb x ">") eqn:H4;
    [destruct Hc as [<- | [<- | [<- | [<- | []]]]]; reflexivity |].
  destruct (Ascii.eqb x quote) eqn:H5;
    [destruct Hc as [<- | [<- | [<- | [<- | []]]]]; reflexivity |].
  cbn [Str.count].
  destruct Hc as [<- | [<- | [<- | [<- | []]]]];
    [rewrite H3 | rewrite H4 | rewrite H5 | rewrite H2]; reflexivity.
Qed.

Lemma count_EscapeString (c : ascii) (s : string) :
  In c markup -> Str.count c (EscapeString s) = 0.
Proof.
  intro Hc. induction s as [| x s IH]; cbn [EscapeString]; [reflexivity |].
  now rewrite count_append, count_escapeChar, IH.
Qed.

(** X12. Whatever the summary, the language and the counts of a
    repository hold, the description of its feed item has no markup of
    theirs: its only [<] and [>] are those of the four [<br>] the command
    writes, and it has no quote and no apostrophe. *)
Theorem rssItem_description_markup (pubDate : string) (generatedAt : Time.t)
        (repo : TrendingRepoWithSummary.t) :
  let description := RSSItem.Description (rssItem pubDate generatedAt repo) in
  Str.count "<" description = 4
  /\ Str.count ">" description = 4
  /\ Str.count quote description = 0
  /\ Str.count apostrophe description = 0.
Proof.
  unfold rssItem. cbn [RSSItem.Description].
  repeat split; rewrite !count_append, !count_EscapeString;
    try reflexivity; unfold markup; cbn [In]; auto.
Qed.

Lemma append_cancel_r (a b s : string) :
  (a ++ s)%string = (b ++ s)%string -> a = b.
Proof.
  revert b. induction a as [| x a IH]; intros [| y b] H; cbn [append] in H.
  - reflexivity.
  - apply (f_equal String.length) in H. cbn [String.length] in H.
    rewrite length_append in H. lia.
  - apply (f_equal String.length) in H. cbn [String.length] in H.
    rewrite length_append in H. lia.
  - injection H as -> H. f_equal. now apply IH.
Qed.

(** X13. The feed document has one item per repository, in order, each
    linking to its repository and dated like the channel; within one
    document two items have the same GUID exactly when they link to the
    same URL. *)
Theorem rssDocument_items (repos : list TrendingRepoWithSummary.t)
        (generatedAt : Time.t) :
  let channel := RSS.Channel (rssDocument repos generatedAt) in
  map RSSItem.Link (RSSChannel.Items channel)
  = map TrendingRepoWithSummary.URL repos
  /\ Forall (fun item => RSSItem.PubDate item = RSSChannel.PubDate channel)
            (RSSChannel.Items channel)
  /\ forall item item',
       In item (RSSChannel.Items channel) ->
       In item' (RSSChannel.Items channel) ->
       (RSSItem.GUID item = RSSItem.GUID item'
        <-> RSSItem.Link item = RSSItem.Link item').
Proof.
  unfold rssDocument. cbn [RSS.Channel RSSChannel.Items RSSChannel.PubDate].
  split; [| split].
  - rewrite map_map. reflexivity.
  - apply Forall_forall. intros item Hin. apply in_map_iff in Hin.
    destruct Hin as (repo & <- & _). reflexivity.
  - intros item item' Hin Hin'. apply in_map_iff in Hin, Hin'.
    destruct Hin as (repo & <- & _). destruct Hin' as (repo' & <- & _).
    unfold rssItem. cbn [RSSItem.GUID RSSItem.Link]. split.
    + apply append_cancel_r.
    + intros ->. reflexivity.
Qed.

End FeedFacts.

(* ================================================================== *)
(** * More facts about pools of tasks *)
(* ================================================================== *)

Section PoolMore.

Import Obs.
Local Open Scope list_scope.

Variable E : Type -> Type.

Lemma Forall2_nth_error_r (A B : Type) (R : B -> A -> Prop) (bs : list B)
      (l : list A) (i : nat) (a : A) :
  Forall2 R bs l -> nth_error l i = Some a ->
  exists b, nth_error bs i = Some b /\ R b a.
Proof.
  intro HF. revert i. induction HF as [| b x bs l Hbx HF IH]; intros i Hi.
  - destruct i; discriminate.
  - destruct i as [| i]; cbn in *.
    + injection Hi as <-. eauto.
    + apply IH, Hi.
Qed.

Lemma Forall2_set_nth (A B : Type) (R : B -> A -> Prop) (bs : list B)
      (l : list A) (i : nat) (b : B) (a : A) :
  Forall2 R bs l -> R b a -> Forall2 R (set_nth i b bs) (set_nth i a l).
Proof.
  intros HF Hba. revert i. induction HF as [| b' x bs l Hbx HF IH]; intro i.
  - destruct i; constructor.
  - destruct i as [| i]; cbn; constructor; auto.
Qed.

Lemma set_nth_same (A : Type) (l : list A) (i : nat) (a : A) :
  nth_error l i = Some a -> set_nth i a l = l.
Proof.
  revert i. induction l as [| x l IH]; intros [| i] Hi; cbn in *;
    try discriminate.
  - now injection Hi as ->.
  - f_equal. apply IH, Hi.
Qed.

Lemma list_sum_set_nth (ns : list nat) (i n m : nat) :
  nth_error ns i = Some n ->
  list_sum (set_nth i m ns) + n = list_sum ns + m.
Proof.
  revert i. induction ns as [| x ns IH]; intros [| i] Hi; simpl in *;
    try discriminate.
  - injection Hi as ->. lia.
  - specialize (IH i Hi). lia.
Qed.

(** A property of tasks that answering a call keeps holds of every task
    of the pool at every time. *)
Lemma run_pool_keeps (A B : Type) (R : B -> prog E A -> Prop) (w : world E)
      (sched : list nat) (bs : list B) (pool : list (prog E A))
      (h : list (event E)) :
  (forall b X (e : E X) k h', R b (Vis e k) -> R b (k (w X h' e))) ->
  Forall2 R bs pool ->
  Forall2 R bs (fst (run_pool w sched (pool, h))).
Proof.
  intro Hstep. revert pool h.
  induction sched as [| i sched IH]; intros pool h HF; cbn [run_pool].
  - exact HF.
  - unfold pool_step.
    destruct (nth_error pool i) as [[a | X e k] |] eqn:Hi; try now apply IH.
    apply IH.
    destruct (Forall2_nth_error_r _ _ _ _ _ _ _ HF Hi) as (b & Hb & HR).
    rewrite <- (set_nth_same _ bs i b Hb).
    apply Forall2_set_nth; [exact HF |]. now apply Hstep.
Qed.

Lemma collect_Some (A : Type) (pool : list (prog E A)) (out : list A) :
  collect pool = Some out -> pool = map Ret out.
Proof.
  revert out. induction pool as [| t pool IH]; intros out Hc; cbn in Hc.
  - now injection Hc as <-.
  - destruct t as [a | X e k]; [| discriminate].
    destruct (collect pool) as [l |]; [| discriminate].
    injection Hc as <-. cbn. f_equal. now apply IH.
Qed.

(** In a stateless world the values [Promise.all] resolves to are those
    the tasks end with when each runs alone, whatever the schedule. *)
Lemma all_stateless (A : Type) (w : world E) (sched : list nat)
      (tasks : list (prog E A)) (h : list (event E)) (out : list A) :
  stateless w ->
  fst (all w sched tasks h) = Some out -> out = map (value w) tasks.
Proof.
  intros Hw Hall. unfold all in Hall.
  pose proof (run_pool_keeps A (prog E A)
                (fun t0 t => value w t = value w t0) w sched tasks tasks h)
    as Hkeep.
  destruct (run_pool w sched (tasks, h)) as [pool h']. cbn [fst] in *.
  apply collect_Some in Hall. subst pool.
  assert (HF : Forall2 (fun t0 t => value w t = value w t0) tasks
                       (map Ret out)).
  { apply Hkeep.
    - intros t0 X e k h0 <-. unfold value. cbn [exec].
      rewrite (Hw X [] h0 e).
      apply (exec_stateless _ _ w (k (w X h0 e)) [] ([] ++ [ev e]) Hw).
    - clear. induction tasks; constructor; auto. }
  clear Hkeep. revert HF. generalize tasks. clear.
  induction out as [| a out IH]; intros tasks HF; inversion HF; subst; cbn.
  - reflexivity.
  - f_equal; [| now apply IH].
    match goal with H : value w (Ret a) = _ |- _ => rewrite <- H end.
    reflexivity.
Qed.

(** When each task shows at most so many calls through [f], the calls of
    the pool show at most the sum, whatever the schedule. *)
Lemma run_pool_budget (A B : Type) (f : event E -> list B) (w : world E)
      (sched : list nat) (ns : list nat) (pool : list (prog E A))
      (h : list (event E)) :
  Forall2 (fun n t => tracks (fun _ l => List.length (flat_map f l) <= n) t)
          ns pool ->
  exists l, snd (run_pool w sched (pool, h)) = h ++ l
            /\ List.length (flat_map f l) <= list_sum ns.
Proof.
  revert ns pool h.
  induction sched as [| i sched IH]; intros ns pool h HF; cbn [run_pool].
  - exists []. cbn. rewrite app_nil_r. split; [reflexivity | lia].
  - unfold pool_step.
    destruct (nth_error pool i) as [[a | X e k] |] eqn:Hi; try now apply IH.
    destruct (Forall2_nth_error_r _ _ _ _ _ _ _ HF Hi) as (n & Hn & Ht).
    cbn [tracks] in Ht. specialize (Ht (w X h e)).
    pose proof (tracks_exec _ _ _ w _ (h ++ [ev e]) Ht) as Hd.
    cbn [flat_map] in Hd. rewrite length_app in Hd.
    destruct (IH (set_nth i (n - List.length (f (ev e))) ns)
                 (set_nth i (k (w X h e)) pool) (h ++ [ev e]))
      as (l & Hl & Hlen).
    { apply Forall2_set_nth; [exact HF |].
      eapply tracks_weaken; [| exact Ht].
      cbn [flat_map]. intros a l. rewrite length_app. lia. }
    exists (ev e :: l). split.
    + rewrite Hl, <- app_assoc. reflexivity.
    + pose proof (list_sum_set_nth ns i n (n - List.length (f (ev e))) Hn).
      cbn [flat_map]. rewrite length_app. lia.
Qed.

Lemma all_budget (A B : Type) (f : event E -> list B) (w : world E)
      (sched : list nat) (n : nat) (tasks : list (prog E A))
      (h : list (event E)) :
  Forall (tracks (fun _ l => List.length (flat_map f l) <= n)) tasks ->
  exists l, snd (all w sched tasks h) = h ++ l
            /\ List.length (flat_map f l) <= n * List.length tasks.
Proof.
  intro HF.
  destruct (run_pool_budget A B f w sched (map (fun _ => n) tasks) tasks h)
    as (l & Hl & Hlen).
  { induction HF; cbn; constructor; auto. }
  exists l. unfold all.
  destruct (run_pool w sched (tasks, h)) as [pool h']. cbn [snd] in *.
  split; [exact Hl |].
  assert (Hsum : list_sum (map (fun _ => n) tasks) = n * List.length tasks).
  { clear. induction tasks as [| t tasks IH]; simpl; [lia | rewrite IH; lia]. }
  lia.
Qed.

End PoolMore.

(* ================================================================== *)
(** * More facts about the TypeScript worker *)
(* ================================================================== *)

Section TSMore.

Import Obs TS.
Local Open Scope list_scope.

Ltac walk :=
  repeat first
    [ tracks_step
    | progress cbn [bind call fetchReadmeFrom]
    | match goal with
      | |- tracks _ (bind (match ?x with _ => _ end) _) => destruct x eqn:?
      end ].

(** ** Fetching the trending list *)

Lemma trace_fetchTrending (w : world E) (h : list (event E)) :
  trace w fetchTrending h = [ev (fetch trendingURL)].
Proof.
  unfold fetchTrending. cbn [bind call trace]. f_equal.
  destruct (w _ h (fetch trendingURL)) as [res | e]; [| reflexivity].
  destruct (negb (Response.ok res)); [reflexivity |].
  destruct (Response.json res) as [[items |] | e]; reflexivity.
Qed.

(** X14. [fetchTrending] makes one request, to the address of the trending
    list, and returns a list exactly when the answer is [ok] and its JSON
    has an array under [items], which it returns as it is; otherwise it
    throws. *)
Theorem ts_fetchTrending_returns (w : world E) (h : list (event E)) :
  trace w fetchTrending h = [ev (fetch trendingURL)]
  /\ forall items,
       fst (exec w fetchTrending h) = Returned items
       <-> exists res,
             w _ h (fetch trendingURL) = Returned res
             /\ Response.ok res = true
             /\ Response.json res = Returned (Some items).
Proof.
  split; [apply trace_fetchTrending |].
  intro items. unfold fetchTrending. cbn [bind call exec].
  destruct (w _ h (fetch trendingURL)) as [res | e]; cbn [exec fst].
  - destruct (Response.ok res) eqn:Hok; cbn [negb exec fst].
    + destruct (Response.json res) as [[items' |] | e] eqn:Hjson;
        cbn [exec fst]; split.
      * intro H. injection H as <-. eauto.
      * intros (res' & Hres & _ & Hj). injection Hres as <-.
        rewrite Hjson in Hj. now injection Hj as <-.
      * discriminate.
      * intros (res' & Hres & _ & Hj). injection Hres as <-. congruence.
      * discriminate.
      * intros (res' & Hres & _ & Hj). injection Hres as <-. congruence.
    + split; [discriminate |].
      intros (res' & Hres & Hok' & _). injection Hres as <-. congruence.
  - split; [discriminate |]. intros (res' & Hres & _). discriminate.
Qed.

(** ** The calls of the tasks *)

Lemma enrichRepo_budget (apiKey : string) (repo : TrendingRepo.t) :
  tracks (fun _ l => List.length (generated l) <= 1
                     /\ List.length (fetched l) <= 2
                     /\ List.length (stored l) <= 0)
         (enrichRepo apiKey repo).
Proof.
  unfold enrichRepo, fetchReadme, branches, summarizeReadme.
  walk; cbn; repeat split; lia.
Qed.

Lemma all_enrichRepo_budget (apiKey : string) (w : world E) (sched : list nat)
      (repos : list TrendingRepo.t) (h : list (event E)) :
  exists l, snd (all w sched (map (enrichRepo apiKey) repos) h) = h ++ l
            /\ List.length (generated l) <= List.length repos
            /\ List.length (fetched l) <= 2 * List.length repos
            /\ stored l = [].
Proof.
  assert (Htasks : forall (B : Type) (f : event E -> list B) (n : nat),
             (forall repo,
                 tracks (fun _ l => List.length (flat_map f l) <= n)
                        (enrichRepo apiKey repo)) ->
             exists l,
               snd (all w sched (map (enrichRepo apiKey) repos) h) = h ++ l
               /\ List.length (flat_map f l) <= n * List.length repos).
  { intros B f n Hf.
    destruct (all_budget E _ B f w sched n (map (enrichRepo apiKey) repos) h)
      as (l & Hl & Hlen).
    - apply Forall_forall. intros t Ht. apply in_map_iff in Ht.
      destruct Ht as (repo & <- & _). apply Hf.
    - rewrite length_map in Hlen. eauto. }
  destruct (Htasks _ contents_of 1) as (l & Hl & Hg).
  { intro repo. eapply tracks_weaken; [| apply enrichRepo_budget].
    intros a l0 H. apply H. }
  destruct (Htasks _ fetch_of 2) as (l1 & Hl1 & Hf).
  { intro repo. eapply tracks_weaken; [| apply enrichRepo_budget].
    intros a l0 H. apply H. }
  destruct (Htasks _ put_of 0) as (l2 & Hl2 & Hs).
  { intro repo. eapply tracks_weaken; [| apply enrichRepo_budget].
    intros a l0 H. apply H. }
  rewrite Hl in Hl1, Hl2. apply app_inv_head in Hl1, Hl2. subst l1 l2.
  exists l. split; [exact Hl |]. unfold generated, fetched, stored.
  repeat split; try lia.
  destruct (flat_map put_of l); [reflexivity | cbn in Hs; lia].
Qed.

(** X15. Whatever the schedule and the answers,
    [getTrendingReposWithSummary] starts with the request for the
    trending list; when that fails it makes no other call; otherwise it
    asks the generation backend at most once per repository and fetches
    at most two READMEs per repository; it never writes to the store. *)
Theorem getTrendingReposWithSummary_calls
        (apiKey : string) (w : world E) (sched : list nat)
        (h : list (event E)) :
  exists l,
    snd (getTrendingReposWithSummary apiKey w sched h)
    = h ++ ev (fetch trendingURL) :: l
    /\ stored l = []
    /\ match fst (exec w fetchTrending h) with
       | Returned repos =>
           List.length (generated l) <= List.length repos
           /\ List.length (fetched l) <= 2 * List.length repos
       | Thrown _ => l = []
       end.
Proof.
  unfold getTrendingReposWithSummary.
  pose proof (exec_history _ _ w fetchTrending h) as Hh.
  rewrite trace_fetchTrending in Hh.
  destruct (exec w fetchTrending h) as [fetched0 h1]. cbn [fst snd] in *.
  subst h1. destruct fetched0 as [repos | e].
  - destruct (all_enrichRepo_budget apiKey w sched repos
                (h ++ [ev (fetch trendingURL)])) as (l & Hl & Hg & Hf & Hs).
    exists l.
    destruct (all w sched (map (enrichRepo apiKey) repos)
                (h ++ [ev (fetch trendingURL)])) as [settled h2].
    cbn [snd] in Hl. subst h2.
    rewrite <- app_assoc. cbn [app].
    destruct settled; cbn [snd]; auto.
  - exists []. cbn [snd]. auto.
Qed.

(** ** Schedules *)

(** X16. When the answers of the outside do not depend on what was asked
    before, the list [getTrendingReposWithSummary] returns does not depend
    on the schedule: it holds, for each repository in turn, the object its
    task ends with when it runs alone. *)
Theorem getTrendingReposWithSummary_schedule_independent
        (apiKey : string) (w : world E) (sched : list nat)
        (h : list (event E)) (out : list TrendingRepoWithSummary.t) :
  stateless w ->
  fst (getTrendingReposWithSummary apiKey w sched h) = Done (Returned out) ->
  exists repos,
    fst (exec w fetchTrending []) = Returned repos
    /\ out = map (fun repo => value w (enrichRepo apiKey repo)) repos.
Proof.
  intros Hw Hout. unfold getTrendingReposWithSummary in Hout.
  destruct (exec_stateless _ _ w fetchTrending h [] Hw) as [Hv _].
  rewrite <- Hv.
  destruct (exec w fetchTrending h) as [fetched0 h1]. cbn [fst] in *.
  destruct fetched0 as [repos | e]; [| discriminate].
  exists repos. split; [reflexivity |].
  pose proof (all_stateless E _ w sched (map (enrichRepo apiKey) repos) h1)
    as Hall.
  destruct (all w sched (map (enrichRepo apiKey) repos) h1) as [settled h2].
  destruct settled as [out' |]; [| discriminate].
  cbn [fst] in *. injection Hout as <-.
  rewrite (Hall out' Hw eq_refl), map_map. reflexivity.
Qed.

Lemma getTrendingReposWithSummary_schedule_independent_witness :
  let feed := [Examples.tsRepo "a/b" "foo"; Examples.tsRepo "bad" "x"] in
  let w := Examples.tsWorld feed (Examples.tsReadme "text")
             (Returned (Some "要約")) in
  exists repos,
    fst (exec w fetchTrending []) = Returned repos
    /\ [withSummary (Examples.tsRepo "a/b" "foo") "要約";
        withSummary (Examples.tsRepo "bad" "x") "要約"]
       = map (fun repo => value w (enrichRepo "key" repo)) repos.
Proof.
  intros feed w.
  apply (getTrendingReposWithSummary_schedule_independent
           "key" w Examples.interleaved []).
  - intros X h h' e. reflexivity.
  - vm_compute. reflexivity.
Defined.

(** X17. Whenever [getTrendingReposWithSummary] returns, under any
    schedule, it returns the fetched repositories in turn, each with its
    fields and a summary that is not the empty string. *)
Theorem ts_summary_never_empty
        (apiKey : string) (w : world E) (sched : list nat)
        (h : list (event E)) (out : list TrendingRepoWithSummary.t) :
  fst (getTrendingReposWithSummary apiKey w sched h) = Done (Returned out) ->
  fst (exec w fetchTrending h) = Returned (map source out)
  /\ Forall (fun item => TrendingRepoWithSummary.summary item <> EmptyString)
            out.
Proof.
  intro Hout. unfold getTrendingReposWithSummary in Hout.
  destruct (exec w fetchTrending h) as [fetched0 h1]. cbn [fst] in *.
  destruct fetched0 as [repos | e]; [| discriminate].
  pose proof (all_enrichRepo apiKey w sched repos h1) as Hall.
  pose proof (all_enrichRepo_source apiKey w sched repos h1) as Hsrc.
  destruct (all w sched (map (enrichRepo apiKey) repos) h1) as [settled h2].
  destruct settled as [out' |]; [| discriminate].
  cbn [fst] in *. injection Hout as <-.
  rewrite (Hsrc out' eq_refl). split; [reflexivity |].
  specialize (Hall out' eq_refl). clear Hsrc.
  induction Hall as [| repo item repos' out'' [_ Hs] _ IH]; constructor; auto.
Qed.

Lemma ts_summary_never_empty_witness :
  let feed := [Examples.tsRepo "a/b" "foo"; Examples.tsRepo "bad" "x"] in
  let w := Examples.tsWorld feed (Examples.tsReadme "text")
             (Returned (Some EmptyString)) in
  let out := [withSummary (Examples.tsRepo "a/b" "foo") "要約失敗";
              withSummary (Examples.tsRepo "bad" "x") "要約失敗"] in
  fst (exec w fetchTrending []) = Returned (map source out)
  /\ Forall (fun item => TrendingRepoWithSummary.summary item <> EmptyString)
            out.
Proof.
  intros feed w out.
  apply (ts_summary_never_empty "key" w Examples.interleaved [] out).
  vm_compute. reflexivity.
Defined.

(** ** The scheduled handler *)

Lemma stored_app (l l' : list (event E)) :
  stored (l ++ l') = stored l ++ stored l'.
Proof.
  apply flat_map_app.
Qed.

Lemma getTrendingReposWithSummary_stores_nothing
      (apiKey : string) (w : world E) (sched : list nat)
      (h : list (event E)) :
  stored (snd (getTrendingReposWithSummary apiKey w sched h)) = stored h.
Proof.
  unfold getTrendingReposWithSummary.
  pose proof (exec_history _ _ w fetchTrending h) as Hh.
  rewrite trace_fetchTrending in Hh.
  destruct (exec w fetchTrending h) as [fetched0 h1]. cbn [fst snd] in *.
  subst h1. destruct fetched0 as [repos | e].
  - destruct (all_enrichRepo_budget apiKey w sched repos
                (h ++ [ev (fetch trendingURL)])) as (l & Hl & _ & _ & Hs).
    destruct (all w sched (map (enrichRepo apiKey) repos)
                (h ++ [ev (fetch trendingURL)])) as [settled h2].
    cbn [snd] in Hl. subst h2.
    assert (Hst : stored ((h ++ [ev (fetch trendingURL)]) ++ l) = stored h).
    { rewrite !stored_app, Hs. cbn. now rewrite !app_nil_r. }
    destruct settled; cbn [snd]; exact Hst.
  - cbn [snd]. rewrite stored_app. cbn. now rewrite app_nil_r.
Qed.

(** X18. [scheduled] writes to the store only when the enrichment has
    returned, and then once, under the key the routes read: the returned
    objects with the time read after the enrichment.  When the enrichment
    throws or is still pending nothing is written.  [scheduled] returns
    exactly when the enrichment returned and that write returns. *)
Theorem scheduled_stores
        (apiKey : string) (w : world E) (sched : list nat)
        (h : list (event E)) :
  let enriched := getTrendingReposWithSummary apiKey w sched h in
  let ran := scheduled apiKey w sched h in
  let written repos :=
    put KV_KEY (TrendingData.mk repos (w _ (snd enriched) toISOString)) in
  stored (snd ran)
  = stored h
    ++ match fst enriched with
       | Done (Returned repos) =>
           [(KV_KEY, TrendingData.mk repos (w _ (snd enriched) toISOString))]
       | _ => []
       end
  /\ (fst ran = Done (Returned tt)
      <-> exists repos,
            fst enriched = Done (Returned repos)
            /\ w _ (snd enriched ++ [ev toISOString]) (written repos)
               = Returned tt).
Proof.
  intros enriched ran written. unfold ran, written, scheduled.
  pose proof (getTrendingReposWithSummary_stores_nothing apiKey w sched h)
    as Hst.
  fold enriched in Hst |- *.
  destruct enriched as [[[repos | e] |] h1]; cbn [fst snd exec call] in *.
  - destruct (w _ (h1 ++ [ev toISOString])
                (put KV_KEY (TrendingData.mk repos (w _ h1 toISOString))))
      as [[] | e] eqn:Hput; cbn [fst snd]; split.
    + rewrite !stored_app, Hst. cbn. now rewrite app_nil_r.
    + split; [eauto |]. reflexivity.
    + rewrite !stored_app, Hst. cbn. now rewrite app_nil_r.
    + split; [discriminate |].
      intros (repos' & Hr & Hw). injection Hr as <-. congruence.
  - split; [now rewrite Hst, app_nil_r |].
    split; [discriminate |]. intros (repos' & Hr & _). discriminate.
  - split; [now rewrite Hst, app_nil_r |].
    split; [discriminate |]. intros (repos' & Hr & _). discriminate.
Qed.

End TSMore.

(* ================================================================== *)
(** * The routes of the worker *)
(* ================================================================== *)

Section ServeFacts.

Import TS TSServe.
Local Open Scope list_scope.

Lemma trace_generateRSS (w : world E) (data : TrendingData.t)
      (h : list (event E)) :
  trace w (generateRSS data) h
  = [ev (xml (feedOptions (TrendingData.generatedAt data))
             (map (feedItem (TrendingData.generatedAt data))
                  (TrendingData.items data)))].
Proof.
  reflexivity.
Qed.

Lemma feedItem_description_lt (generatedAt : string)
      (repo : TrendingRepoWithSummary.t) :
  Str.count "<" (ItemOptions.description (feedItem generatedAt repo))
  = 4 + Str.count "<" (TrendingRepoWithSummary.summary repo)
    + match TrendingRepoWithSummary.language repo with
      | Some language => Str.count "<" language
      | None => 0
      end
    + Str.count "<" (TrendingRepoWithSummary.stars repo)
    + Str.count "<" (TrendingRepoWithSummary.addStars repo)
    + Str.count "<" (TrendingRepoWithSummary.forks repo).
Proof.
  unfold feedItem. cbn [ItemOptions.description].
  rewrite !count_append.
  destruct (TrendingRepoWithSummary.language repo) as [language |].
  - destruct (String.eqb_spec language EmptyString) as [-> | _]; cbn; lia.
  - cbn. lia.
Qed.

(** X19. What [generateRSS] hands to the [rss] package: one item per
    stored repository, in order, each with the URL of its repository and
    the date of the feed; two items have the same GUID exactly when they
    have the same URL.  The texts of a repository go into the description
    as they are: its [<] are those of the four [<br>] and those of the
    summary, the language, the two star counts and the fork count. *)
Theorem generateRSS_items (w : world E) (data : TrendingData.t)
        (h : list (event E)) :
  let items := feedItems (trace w (generateRSS data) h) in
  map ItemOptions.url items
  = map TrendingRepoWithSummary.url (TrendingData.items data)
  /\ Forall (fun item => ItemOptions.date item = TrendingData.generatedAt data)
            items
  /\ (forall item item',
         In item items -> In item' items ->
         (ItemOptions.guid item = ItemOptions.guid item'
          <-> ItemOptions.url item = ItemOptions.url item'))
  /\ Forall2
       (fun repo item =>
          Str.count "<" (ItemOptions.description item)
          = 4 + Str.count "<" (TrendingRepoWithSummary.summary repo)
            + match TrendingRepoWithSummary.language repo with
              | Some language => Str.count "<" language
              | None => 0
              end
            + Str.count "<" (TrendingRepoWithSummary.stars repo)
            + Str.count "<" (TrendingRepoWithSummary.addStars repo)
            + Str.count "<" (TrendingRepoWithSummary.forks repo))
       (TrendingData.items data) items.
Proof.
  intro items. unfold items. rewrite trace_generateRSS.
  unfold feedItems. cbn [flat_map item_of projT2 ev]. rewrite app_nil_r.
  split; [| split; [| split]].
  - rewrite map_map. reflexivity.
  - apply Forall_forall. intros item Hin. apply in_map_iff in Hin.
    destruct Hin as (repo & <- & _). reflexivity.
  - intros item item' Hin Hin'. apply in_map_iff in Hin, Hin'.
    destruct Hin as (repo & <- & _). destruct Hin' as (repo' & <- & _).
    unfold feedItem. cbn [ItemOptions.guid ItemOptions.url]. split.
    + apply append_cancel_r.
    + intros ->. reflexivity.
  - induction (TrendingData.items data) as [| repo repos IH]; cbn [map];
      constructor; [apply feedItem_description_lt | exact IH].
Qed.

(** X20. The [/feed] route reads the store once, under the key
    [scheduled] writes.  It answers 200, with the feed headers, exactly
    with the text the [rss] package renders from the stored data; it
    answers 503 exactly when the store holds nothing, and then nothing is
    rendered; every other answer is 500; an answer that is not 200 has no
    headers of the route and one of two fixed texts. *)
Theorem feed_route (w : world E) (h : list (event E)) :
  let r := fst (exec w feed h) in
  let calls := trace w feed h in
  reads calls = [KV_KEY]
  /\ (forall text,
         (Reply.status r = 200%Z /\ Reply.body r = Text text)
         <-> exists data,
               w _ h (get KV_KEY) = Returned (Some data)
               /\ w _ (h ++ [ev (get KV_KEY)])
                    (xml (feedOptions (TrendingData.generatedAt data))
                         (map (feedItem (TrendingData.generatedAt data))
                              (TrendingData.items data)))
                  = Returned text)
  /\ (Reply.status r = 200%Z ->
      Reply.headers r
      = [("Content-Type", "application/rss+xml; charset=utf-8");
         ("Cache-Control", "public, max-age=86400")])
  /\ (Reply.status r = 503%Z <-> w _ h (get KV_KEY) = Returned None)
  /\ (w _ h (get KV_KEY) = Returned None -> calls = [ev (get KV_KEY)])
  /\ (Reply.status r <> 200%Z ->
      Reply.headers r = []
      /\ ((Reply.status r = 503%Z /\ Reply.body r = Text "No data available")
          \/ (Reply.status r = 500%Z
              /\ Reply.body r = Text "Internal server error"))).
Proof.
  intros r calls. unfold r, calls, feed, generateRSS.
  cbn [bind call exec trace].
  destruct (w _ h (get KV_KEY)) as [[data |] | e] eqn:Hget.
  - cbn [bind call exec trace].
    destruct (w _ (h ++ [ev (get KV_KEY)])
                (xml (feedOptions (TrendingData.generatedAt data))
                     (map (feedItem (TrendingData.generatedAt data))
                          (TrendingData.items data))))
      as [text' | e] eqn:Hxml;
      cbn [exec trace fst Reply.status Reply.body Reply.headers].
    + split; [reflexivity |]. split.
      { intro text. split.
        - intros [_ Hb]. injection Hb as <-. exists data. auto.
        - intros (data' & Hd & Hx). injection Hd as <-.
          rewrite Hxml in Hx. injection Hx as <-. auto. }
      split; [reflexivity |]. split; [split; discriminate |].
      split; [discriminate |]. intro Hc. now contradiction Hc.
    + split; [reflexivity |]. split.
      { intro text. split.
        - intros [Hs _]. discriminate.
        - intros (data' & Hd & Hx). injection Hd as <-. congruence. }
      split; [discriminate |]. split; [split; discriminate |].
      split; [discriminate |]. intros _. auto.
  - cbn [exec trace fst Reply.status Reply.body Reply.headers].
    split; [reflexivity |]. split.
    { intro text. split.
      - intros [Hs _]. discriminate.
      - intros (data' & Hd & _). discriminate. }
    split; [discriminate |]. split; [split; reflexivity |].
    split; [reflexivity |]. intros _. auto.
  - cbn [exec trace fst Reply.status Reply.body Reply.headers].
    split; [reflexivity |]. split.
    { intro text. split.
      - intros [Hs _]. discriminate.
      - intros (data' & Hd & _). discriminate. }
    split; [discriminate |]. split; [split; discriminate |].
    split; [discriminate |]. intros _. auto.
Qed.

(** X21. For the same store the two routes agree: [/trending] answers
    200, with the stored data as it is, exactly when the store holds
    data; both answer 503 exactly when it holds nothing and 500 when
    reading it throws; [/feed] answers 200 only if [/trending] does. *)
Theorem routes_agree (w : world E) (h : list (event E)) :
  let t := fst (exec w trending h) in
  let f := fst (exec w feed h) in
  trace w trending h = [ev (get KV_KEY)]
  /\ (forall data,
         t = Reply.mk 200 (JsonData data) []
         <-> w _ h (get KV_KEY) = Returned (Some data))
  /\ (Reply.status t = 503%Z <-> w _ h (get KV_KEY) = Returned None)
  /\ (Reply.status t = 503%Z <-> Reply.status f = 503%Z)
  /\ (Reply.status t = 500%Z <-> exists e, w _ h (get KV_KEY) = Thrown e)
  /\ (Reply.status t = 500%Z -> Reply.status f = 500%Z)
  /\ (Reply.status f = 200%Z -> Reply.status t = 200%Z).
Proof.
  intros t f. unfold t, f, trending, feed, generateRSS.
  cbn [bind call exec trace].
  destruct (w _ h (get KV_KEY)) as [[data |] | e] eqn:Hget.
  - cbn [bind call exec trace].
    destruct (w _ (h ++ [ev (get KV_KEY)])
                (xml (feedOptions (TrendingData.generatedAt data))
                     (map (feedItem (TrendingData.generatedAt data))
                          (TrendingData.items data))))
      as [text | e];
      cbn [exec trace fst Reply.status];
      (split; [reflexivity |]);
      (split; [intro data'; split; intro H; injection H as <-; reflexivity |]);
      (split; [split; discriminate |]);
      (split; [split; discriminate |]);
      (split; [split; [discriminate | intros [e' He']; discriminate] |]);
      split; try discriminate; reflexivity.
  - cbn [exec trace fst Reply.status].
    split; [reflexivity |].
    split; [intro data'; split; discriminate |].
    split; [split; reflexivity |].
    split; [split; reflexivity |].
    split; [split; [discriminate | intros [e' He']; discriminate] |].
    split; discriminate.
  - cbn [exec trace fst Reply.status].
    split; [reflexivity |].
    split; [intro data'; split; discriminate |].
    split; [split; discriminate |].
    split; [split; discriminate |].
    split; [split; [eauto | reflexivity] |].
    split; [reflexivity | discriminate].
Qed.

End ServeFacts.

(* ================================================================== *)
(** * The home page *)
(* ================================================================== *)

Section HomeFacts.

Import TS Home.
Local Open Scope list_scope.

Lemma orNull_spec (v : option string) :
  orNull v <> Some EmptyString.
Proof.
  destruct v as [s |]; cbn; [| discriminate].
  destruct (String.eqb_spec s EmptyString) as [-> | Hne]; [discriminate |].
  intro H. injection H as ->. now apply Hne.
Qed.

Lemma load_invariant (w : world E) (h : list (event E)) :
  let s := fst (exec w (load initial) h) in
  State.loading s = false
  /\ (State.repos s = None <-> State.error s <> None).
Proof.
  intro s. unfold s, load. cbn [bind call exec fst].
  split; [reflexivity |].
  destruct (w _ h (fetch "/trending")) as [res | message].
  - destruct (Response.ok res); cbn [negb].
    + destruct (Response.json res) as [[[[items |] generatedAt] |] | message];
        cbn; split; try discriminate; try reflexivity.
      intro H. now contradiction H.
    + cbn. split; [discriminate | reflexivity].
  - cbn. split; [discriminate | reflexivity].
Qed.

(** X22. The effect of [Home] makes one request, to [/trending], and
    always ends the loading.  Started from the initial state it leaves
    either the repositories or an error, never both and never neither;
    the repositories are left exactly when the answer is [ok] and its
    JSON has an array under [items]; the date is left only with the
    repositories and is never the empty string. *)
Theorem load_settles (w : world E) (h : list (event E)) :
  let s := fst (exec w (load initial) h) in
  trace w (load initial) h = [ev (fetch "/trending")]
  /\ State.loading s = false
  /\ (State.repos s = None <-> State.error s <> None)
  /\ (forall items,
         State.repos s = Some items
         <-> exists res generatedAt,
               w _ h (fetch "/trending") = Returned res
               /\ Response.ok res = true
               /\ Response.json res
                  = Returned (Some (Payload.mk (Some items) generatedAt)))
  /\ (State.generatedAt s <> None -> State.repos s <> None)
  /\ State.generatedAt s <> Some EmptyString.
Proof.
  intro s. unfold s, load. cbn [bind call exec trace fst].
  split; [reflexivity |]. split; [reflexivity |].
  destruct (w _ h (fetch "/trending")) as [res | message].
  - destruct (Response.ok res) eqn:Hok; cbn [negb].
    + destruct (Response.json res) as [[[[items |] generatedAt] |] | message]
        eqn:Hjson; cbn.
      * split; [split; [discriminate | intro H; now contradiction H] |].
        split.
        { intro items'. split.
          - intro H. injection H as <-. eauto.
          - intros (res' & g & Hres & _ & Hj). injection Hres as <-.
            rewrite Hjson in Hj. now injection Hj as <- _. }
        split; [discriminate | apply orNull_spec].
      * split; [split; [discriminate | reflexivity] |].
        split; [| split; [intro H; now contradiction H | discriminate]].
        intro items'. split; [discriminate |].
        intros (res' & g & Hres & _ & Hj). injection Hres as <-. congruence.
      * split; [split; [discriminate | reflexivity] |].
        split; [| split; [intro H; now contradiction H | discriminate]].
        intro items'. split; [discriminate |].
        intros (res' & g & Hres & _ & Hj). injection Hres as <-. congruence.
      * split; [split; [discriminate | reflexivity] |].
        split; [| split; [intro H; now contradiction H | discriminate]].
        intro items'. split; [discriminate |].
        intros (res' & g & Hres & _ & Hj). injection Hres as <-. congruence.
    + cbn. split; [split; [discriminate | reflexivity] |].
      split; [| split; [intro H; now contradiction H | discriminate]].
      intro items'. split; [discriminate |].
      intros (res' & g & Hres & Hok' & _). injection Hres as <-. congruence.
  - cbn. split; [split; [discriminate | reflexivity] |].
    split; [| split; [intro H; now contradiction H | discriminate]].
    intro items'. split; [discriminate |].
    intros (res' & g & Hres & _). discriminate.
Qed.

(** What the effect leaves as the error, if any. *)
Lemma load_error (w : world E) (h : list (event E)) (message : string) :
  State.error (fst (exec w (load initial) h)) = Some message
  <-> w _ h (fetch "/trending") = Thrown message
      \/ exists res,
           w _ h (fetch "/trending") = Returned res
           /\ ((Response.ok res = false /\ message = "Failed to fetch")
               \/ (Response.ok res = true
                   /\ Response.json res = Thrown message)
               \/ (Response.ok res = true
                   /\ message = "Invalid data format"
                   /\ (Response.json res = Returned None
                       \/ exists generatedAt,
                            Response.json res
                            = Returned (Some (Payload.mk None generatedAt))))).
Proof.
  unfold load. cbn [bind call exec fst].
  destruct (w _ h (fetch "/trending")) as [res | message'].
  - destruct (Response.ok res) eqn:Hok; cbn [negb].
    + destruct (Response.json res) as [[[[items |] generatedAt] |] | message']
        eqn:Hjson; cbn; split.
      * discriminate.
      * intros [H | (res' & Hres & H)]; [discriminate |].
        injection Hres as <-. rewrite Hok, Hjson in H.
        destruct H as [[H _] | [[_ H] | (_ & _ & [H | [g H]])]];
          discriminate.
      * intro H. injection H as <-. right. exists res.
        split; [reflexivity |]. right. right. eauto.
      * intros [H | (res' & Hres & H)]; [discriminate |].
        injection Hres as <-. rewrite Hok, Hjson in H.
        destruct H as [[H _] | [[_ H] | (_ & -> & _)]];
          [discriminate | discriminate | reflexivity].
      * intro H. injection H as <-. right. exists res.
        split; [reflexivity |]. right. right. eauto.
      * intros [H | (res' & Hres & H)]; [discriminate |].
        injection Hres as <-. rewrite Hok, Hjson in H.
        destruct H as [[H _] | [[_ H] | (_ & -> & _)]];
          [discriminate | discriminate | reflexivity].
      * intro H. injection H as <-. right. exists res.
        split; [reflexivity |]. right. left. auto.
      * intros [H | (res' & Hres & H)]; [discriminate |].
        injection Hres as <-. rewrite Hok, Hjson in H.
        destruct H as [[H _] | [[_ H] | (_ & _ & [H | [g H]])]];
          [discriminate | now injection H as <- | discriminate
           | discriminate].
    + cbn. split.
      * intro H. injection H as <-. right. exists res. auto.
      * intros [H | (res' & Hres & H)]; [discriminate |].
        injection Hres as <-. rewrite Hok in H.
        destruct H as [[_ ->] | [[H _] | (H & _)]];
          [reflexivity | discriminate | discriminate].
  - cbn. split.
    + intro H. injection H as <-. auto.
    + intros [H | (res' & Hres & _)]; [now injection H as <- | discriminate].
Qed.

(** X23. After its effect [Home] no longer shows the spinner.  It shows
    the page exactly when the repositories were left, with the date left
    beside them; otherwise it shows the error message when that is not
    empty, and nothing at all when the request or the reading of its body
    failed with an empty message. *)
Theorem render_after_load (w : world E) (h : list (event E)) :
  let s := fst (exec w (load initial) h) in
  render s <> Spinner
  /\ (forall generatedAt repos,
         render s = Page generatedAt repos
         <-> State.repos s = Some repos
             /\ State.generatedAt s = generatedAt)
  /\ (forall message,
         render s = ErrorMessage message
         <-> State.error s = Some message /\ message <> EmptyString)
  /\ (render s = Nothing
      <-> w _ h (fetch "/trending") = Thrown EmptyString
          \/ exists res,
               w _ h (fetch "/trending") = Returned res
               /\ Response.ok res = true
               /\ Response.json res = Thrown EmptyString).
Proof.
  intro s.
  destruct (load_invariant w h) as (Hloading & Hone).
  pose proof (load_error w h) as Herr.
  fold s in Hloading, Hone, Herr.
  unfold render. rewrite Hloading.
  destruct (State.error s) as [message |] eqn:He.
  - assert (Hrepos : State.repos s = None)
      by (apply Hone; discriminate).
    rewrite Hrepos.
    destruct (String.eqb_spec message EmptyString) as [-> | Hne]; cbn [negb].
    + split; [discriminate |].
      split; [intros g repos; split; [discriminate | intros [H _]; discriminate] |].
      split.
      { intro message'. split; [discriminate |].
        intros [H Hne]. injection H as <-. now contradiction Hne. }
      split; [intros _ | reflexivity].
      destruct (proj1 (Herr EmptyString) eq_refl) as [H | (res & Hres & H)];
        [now left |].
      right. exists res. split; [exact Hres |].
      destruct H as [[_ H] | [H | (_ & H & _)]];
        [discriminate | exact H | discriminate].
    + split; [discriminate |].
      split; [intros g repos; split; [discriminate | intros [H _]; discriminate] |].
      split.
      { intro message'. split.
        - intro H. injection H as <-. auto.
        - intros [H _]. now injection H as <-. }
      split; [discriminate |].
      intros [H | (res & Hres & Hok & Hj)].
      * assert (Hm : Some message = Some EmptyString)
          by (apply Herr; now left).
        injection Hm as ->. now contradiction Hne.
      * assert (Hm : Some message = Some EmptyString)
          by (apply Herr; right; exists res; auto).
        injection Hm as ->. now contradiction Hne.
  - destruct (State.repos s) as [repos |] eqn:Hrepos.
    + split; [discriminate |].
      split.
      { intros g repos'. split.
        - intro H. now injection H as <- <-.
        - intros [H <-]. now injection H as <-. }
      split; [intro message; split; [discriminate | intros [H _]; discriminate] |].
      split; [discriminate |].
      intros [H | (res & Hres & Hok & Hj)].
      * assert (Hm : @None string = Some EmptyString)
          by (apply Herr; now left).
        discriminate.
      * assert (Hm : @None string = Some EmptyString)
          by (apply Herr; right; exists res; auto).
        discriminate.
    + exfalso. apply (proj1 Hone eq_refl). reflexivity.
Qed.

End HomeFacts.
